(** * Conway's Game of Life (main.c): a shallow embedding and its properties

    The program keeps a two-dimensional array [bool cells[N_CELLS_ROW][N_CELLS_COL]],
    initialises it from a text file or at random, and then runs a loop that
    draws the array every frame and replaces it by its next generation once
    every [FRAMES_PER_ITERATION] frames.

    C [int] values are modelled as [Z]; every arithmetic expression of the
    program stays far inside the range of [int] for the configurations
    considered, except where a wrap-around or an overflow is written out.
    C's [/] and [%] are [Z.quot] and [Z.rem]. *)

From Stdlib Require Import Ascii String ZArith Lia List Bool.
From stdpp Require Import base numbers list list_numbers.

Local Open Scope Z_scope.

(** ** Global constants (main.c, lines 6-24) *)

Record Config : Type := mkConfig {
  SCR_WIDTH : Z;
  SCR_HEIGHT : Z;
  CELL_SIZE : Z;
  FPS : Z;
  SIMULATION_FPS : Z
}.

(** The values the source is compiled with. *)
Definition source_config : Config :=
  {| SCR_WIDTH := 640; SCR_HEIGHT := 480; CELL_SIZE := 8;
     FPS := 240; SIMULATION_FPS := 20 |}.

Definition INT_MAX : Z := 2147483647.

(** Derived constants. *)
Definition N_CELLS_ROW (cfg : Config) : Z := SCR_WIDTH cfg ÷ CELL_SIZE cfg.
Definition N_CELLS_COL (cfg : Config) : Z := SCR_HEIGHT cfg ÷ CELL_SIZE cfg.
Definition FRAMES_PER_ITERATION (cfg : Config) : Z := FPS cfg ÷ SIMULATION_FPS cfg.

(** The constants are C [int]s, and the two start-up checks of [main]
    (lines 42 and 48) pass. *)
Definition valid_config (cfg : Config) : Prop :=
  0 < CELL_SIZE cfg <= INT_MAX /\
  0 < SCR_WIDTH cfg <= INT_MAX /\
  0 < SCR_HEIGHT cfg <= INT_MAX /\
  0 < SIMULATION_FPS cfg <= INT_MAX /\
  0 < FPS cfg <= INT_MAX /\
  Z.rem (SCR_WIDTH cfg) (CELL_SIZE cfg) = 0 /\
  Z.rem (SCR_HEIGHT cfg) (CELL_SIZE cfg) = 0 /\
  FRAMES_PER_ITERATION cfg <> 0.

(** ** The cell array *)

(** [cells[x][y]]: the outer list is indexed by [x] (N_CELLS_ROW entries),
    each inner list by [y] (N_CELLS_COL entries). *)
Abbreviation Grid := (list (list bool)).

Definition well_formed (cfg : Config) (cells : Grid) : Prop :=
  length cells = Z.to_nat (N_CELLS_ROW cfg) /\
  Forall (fun col => length col = Z.to_nat (N_CELLS_COL cfg)) cells.

(** The same as a test that can be evaluated. *)
Definition well_formedb (cfg : Config) (cells : Grid) : bool :=
  Nat.eqb (length cells) (Z.to_nat (N_CELLS_ROW cfg))
  && forallb (fun col => Nat.eqb (length col) (Z.to_nat (N_CELLS_COL cfg))) cells.

Definition in_bounds (cfg : Config) (x y : Z) : bool :=
  (0 <=? x) && (x <? N_CELLS_ROW cfg) && (0 <=? y) && (y <? N_CELLS_COL cfg).

(** The r-value [cells[x][y]], for indices inside the array. *)
Definition load (cells : Grid) (x y : Z) : bool :=
  match cells !! Z.to_nat x with
  | Some col => default false (col !! Z.to_nat y)
  | None => false
  end.

(** The assignment [cells[x][y] = v], for indices inside the array. *)
Definition store (cells : Grid) (x y : Z) (v : bool) : Grid :=
  alter (fun col => <[Z.to_nat y := v]> col) (Z.to_nat x) cells.

(** [for (int i = 0; i < n; i++)] visits [0, 1, ..., n-1]. *)
Definition upto (n : Z) : list Z := seqZ 0 n.

(** The two nested loops [for y ... for x ...] over the whole array
    (lines 111-112, 138-139, 158-159), threading a state through the body. *)
Definition for_each_cell {A : Type} (cfg : Config) (body : Z -> Z -> A -> A) (init : A) : A :=
  fold_left
    (fun acc y => fold_left (fun acc x => body x y acc) (upto (N_CELLS_ROW cfg)) acc)
    (upto (N_CELLS_COL cfg)) init.

(** ** updateCells (lines 105-141) *)

(** [for (int d = -1; d <= 1; d++)] *)
Definition deltas : list Z := [-1; 0; 1].

(** The loops of lines 114-120 around the cell (x, y): [visit] is what is
    done at each position that passes the two [continue] tests. *)
Definition scan_block {A : Type} (cfg : Config) (x y : Z)
    (visit : Z -> Z -> A -> A) (init : A) : A :=
  fold_left
    (fun acc dx =>
       if (x + dx <? 0) || (x + dx >=? N_CELLS_ROW cfg) then acc
       else
         fold_left
           (fun acc dy =>
              if (y + dy <? 0) || (y + dy >=? N_CELLS_COL cfg) then acc
              else visit (x + dx) (y + dy) acc)
           deltas acc)
    deltas init.

(** The variable [neighbors] after the loops: line 118 is
    [neighbors += cells[x+dx][y+dy]]. *)
Definition count_neighbors (cfg : Config) (cells : Grid) (x y : Z) : Z :=
  scan_block cfg x y (fun i j n => n + Z.b2z (load cells i j)) 0.

(** The positions whose cell the loops read, in the order they are read. *)
Definition visited (cfg : Config) (x y : Z) : list (Z * Z) :=
  scan_block cfg x y (fun i j acc => acc ++ [(i, j)]) [].

(** Lines 124-133: the value assigned to [newCells[x][y]]. *)
Definition next_state (alive : bool) (neighbors : Z) : bool :=
  if alive then
    if neighbors <? 3 then false
    else if neighbors >? 4 then false
    else true
  else
    if neighbors =? 3 then true
    else false.

(** [updateCells] with the content [newCells] of the local array on entry
    made explicit: the array is not initialised by the source. *)
Definition updateCells_from (cfg : Config) (newCells : Grid) (cells : Grid) : Grid :=
  let newCells :=
    for_each_cell cfg
      (fun x y nc => store nc x y (next_state (load cells x y) (count_neighbors cfg cells x y)))
      newCells in
  for_each_cell cfg (fun x y c => store c x y (load newCells x y)) cells.

(** An array of the right dimensions with some content. *)
Definition blank (cfg : Config) : Grid :=
  replicate (Z.to_nat (N_CELLS_ROW cfg)) (replicate (Z.to_nat (N_CELLS_COL cfg)) false).

Definition updateCells (cfg : Config) (cells : Grid) : Grid :=
  updateCells_from cfg (blank cfg) cells.

(** ** readInput (lines 181-211) *)

Definition EXIT_SUCCESS : Z := 0.
Definition EXIT_FAILURE : Z := 1.
Definition EOF : Z := -1.

(** What is printed on stderr, one constructor per [fprintf] of the source. *)
Inductive Diagnostic : Type :=
| TooManyArguments
| ScreenNotMultipleOfCell
| SimulationFasterThanFPS
| CouldNotOpenFile (fileName : String.string)
| UnknownCharacter (c : ascii).

(** [fgetc] on a byte of the file: the byte as an [unsigned char] converted
    to [int]. At the end of the file it returns [EOF]. *)
Definition fgetc_byte (b : ascii) : Z := Z.of_N (N_of_ascii b).

(** The assignment [c = fgetc(fs)] to the variable [char c]: plain [char] is
    a signed 8-bit type on the x86 and x86-64 targets the program is built
    for, and the conversion of an [int] keeps the low 8 bits. *)
Definition char_of_int (i : Z) : Z := (i + 128) mod 256 - 128.

(** A character constant such as ['#']: an [int] with the value of the
    character. *)
Definition char_lit (a : ascii) : Z := char_of_int (fgetc_byte a).

Definition newline : ascii := "010"%char.

(** How a call of [readInput] ends: [ReadSuccess] is [return EXIT_SUCCESS]
    and [ReadFailure] is [return EXIT_FAILURE], each with the array as it
    is at that point; [ReadUndefined] stands for a store outside the array
    or an overflow of [y], from where on the C standard gives the execution
    no meaning. *)
Inductive ReadResult : Type :=
| ReadSuccess (cells : Grid)
| ReadFailure (d : Diagnostic) (cells : Grid)
| ReadUndefined.

(** The loop of lines 192-207, on the bytes still to be read; [fgetc]
    returns [EOF] when there is none. *)
Fixpoint read_loop (cfg : Config) (input : list ascii) (x y : Z) (cells : Grid) : ReadResult :=
  match input with
  | [] => ReadSuccess cells
  | b :: rest =>
      let c := char_of_int (fgetc_byte b) in
      if c =? EOF then ReadSuccess cells
      else if c =? char_lit newline then
        if y + 1 <=? INT_MAX then read_loop cfg rest 0 (y + 1) cells else ReadUndefined
      else if c =? char_lit "#"%char then
        if in_bounds cfg x y then read_loop cfg rest (x + 1) y (store cells x y true)
        else ReadUndefined
      else if c =? char_lit "."%char then
        if in_bounds cfg x y then read_loop cfg rest (x + 1) y (store cells x y false)
        else ReadUndefined
      else ReadFailure (UnknownCharacter b) cells
  end.

(** [fs] is the file system: the content of a file that [fopen] can open. *)
Definition readInput (cfg : Config) (fs : string -> option (list ascii))
    (cells : Grid) (fileName : String.string) : ReadResult :=
  match fs fileName with
  | None => ReadFailure (CouldNotOpenFile fileName) cells
  | Some content => read_loop cfg content 0 0 cells
  end.

(** ** populateRandomCells (lines 221-226) *)

(** [rand k] is the value of the k-th call of [rand()] after [srand]. *)
Definition populateRandomCells (cfg : Config) (rand : nat -> Z) (cells : Grid) : Grid :=
  fst
    (fold_left
       (fun st x =>
          fold_left
            (fun st y =>
               (store (fst st) x y (negb (Z.rem (rand (snd st)) 2 =? 0)), S (snd st)))
            (upto (N_CELLS_COL cfg)) st)
       (upto (N_CELLS_ROW cfg)) (cells, 0%nat)).

(** ** drawScreen (lines 151-167) *)

Definition RED : Z := 255.
Definition GRN : Z := 255.
Definition BLU : Z := 255.
Definition COLOR : Z := Z.shiftl (Z.shiftl RED 8 + GRN) 8 + BLU.

Inductive SurfaceOp : Type :=
| ClearSurface
| FillRect (px py w h : Z) (color : Z)
| UpdateWindowSurface.

Definition drawScreen (cfg : Config) (cells : Grid) : list SurfaceOp :=
  [ClearSurface]
  ++ for_each_cell cfg
       (fun x y ops =>
          if load cells x y
          then ops ++ [FillRect (x * CELL_SIZE cfg) (y * CELL_SIZE cfg)
                                (CELL_SIZE cfg) (CELL_SIZE cfg) COLOR]
          else ops)
       []
  ++ [UpdateWindowSurface].

(** ** main (lines 33-95) *)

Inductive Event : Type :=
| SDL_QUIT
| SDL_KEYDOWN (sym : Z)
| SDL_OTHER.

Definition SDLK_ESCAPE : Z := 27.

(** What one iteration of the loop obtains from its environment: the events
    [SDL_PollEvent] hands out until the queue is empty, and the two values
    of [SDL_GetTicks]. *)
Record FrameInput : Type := mkFrameInput {
  events : list Event;
  startTicks : Z;
  endTicks : Z
}.

(** What the program does that can be observed: a message on stderr, the
    creation of the window, a call of [drawScreen] with what it draws, a
    call of [updateCells], a call of [SDL_Delay]. *)
Inductive Action : Type :=
| AStderr (d : Diagnostic)
| ACreateWindow (w h : Z)
| ADraw (ops : list SurfaceOp)
| AUpdate
| ADelay (ms : Z).

(** How far a run has come: [main] has returned [code]; or the inputs
    given are used up and the loop has not been left; or the run has no
    meaning because [readInput] has none. *)
Inductive Status : Type :=
| Exited (code : Z)
| Running
| Undefined.

Definition to_Uint32 (z : Z) : Z := z mod 2 ^ 32.

(** Lines 77-81. *)
Definition poll_events (evs : list Event) (quit : bool) : bool :=
  fold_left
    (fun quit e =>
       match e with
       | SDL_QUIT => true
       | SDL_KEYDOWN sym => if sym =? SDLK_ESCAPE then true else quit
       | SDL_OTHER => quit
       end)
    evs quit.

(** Line 89. *)
Definition frameTime (fi : FrameInput) : Z :=
  to_Uint32 (to_Uint32 (endTicks fi) - to_Uint32 (startTicks fi)).

(** The argument of [SDL_Delay], line 90. The comparison and the
    subtraction are done in [Uint32]. *)
Definition frame_delay (cfg : Config) (fi : FrameInput) : Z :=
  if frameTime fi >? to_Uint32 (1000 ÷ FPS cfg) then 0
  else to_Uint32 (to_Uint32 (1000 ÷ FPS cfg) - frameTime fi).

(** The variables of the loop: [frame], [cells] and [quit]. *)
Record LoopState : Type := mkLoopState {
  frame : Z;
  cells_of : Grid;
  quit : bool
}.

(** Line 72 and the initialisation of the [for] statement. *)
Definition loop_start (cells : Grid) : LoopState :=
  {| frame := 0; cells_of := cells; quit := false |}.

(** One iteration: the body (lines 74-90), then the step
    [frame = (frame+1) % FRAMES_PER_ITERATION]. The result is what the
    iteration does, in order, and the variables afterwards. *)
Definition frame_step (cfg : Config) (fi : FrameInput) (st : LoopState)
    : list Action * LoopState :=
  let quit := poll_events (events fi) (quit st) in
  let draw := [ADraw (drawScreen cfg (cells_of st))] in
  let update := if frame st =? 0 then [AUpdate] else [] in
  let cells := if frame st =? 0 then updateCells cfg (cells_of st) else cells_of st in
  let delay := [ADelay (frame_delay cfg fi)] in
  (draw ++ update ++ delay,
   {| frame := Z.rem (frame st + 1) (FRAMES_PER_ITERATION cfg);
      cells_of := cells;
      quit := quit |}).

(** The [for] loop of lines 73-91, one [FrameInput] per iteration; the
    result lists the actions iteration by iteration. *)
Fixpoint main_loop (cfg : Config) (inputs : list FrameInput) (st : LoopState)
    : list (list Action) * Status :=
  if quit st then ([], Exited EXIT_SUCCESS)
  else
    match inputs with
    | [] => ([], Running)
    | fi :: later =>
        let r := main_loop cfg later (snd (frame_step cfg fi st)) in
        (fst (frame_step cfg fi st) :: fst r, snd r)
    end.

(** The variables of the loop after the iterations that read [inputs],
    whatever [quit] has become. *)
Definition run_frames (cfg : Config) (inputs : list FrameInput) (st : LoopState)
    : LoopState :=
  fold_left (fun st fi => snd (frame_step cfg fi st)) inputs st.

(** A run of the program: what it does before the loop, what each
    iteration of the loop does, and how it ends. *)
Record Run : Type := mkRun {
  startup : list Action;
  frames : list (list Action);
  status : Status
}.

(** [stack] is the content of the local array [cells] before it is
    initialised. *)
Definition main (cfg : Config) (argc : Z) (argv1 : string)
    (fs : string -> option (list ascii)) (rand : nat -> Z) (stack : Grid)
    (inputs : list FrameInput) : Run :=
  if argc >? 2 then mkRun [AStderr TooManyArguments] [] (Exited EXIT_FAILURE)
  else if negb (Z.rem (SCR_WIDTH cfg) (CELL_SIZE cfg) =? 0)
          || negb (Z.rem (SCR_HEIGHT cfg) (CELL_SIZE cfg) =? 0)
  then mkRun [AStderr ScreenNotMultipleOfCell] [] (Exited EXIT_FAILURE)
  else if FRAMES_PER_ITERATION cfg =? 0
  then mkRun [AStderr SimulationFasterThanFPS] [] (Exited EXIT_FAILURE)
  else
    let window := [ACreateWindow (SCR_WIDTH cfg) (SCR_HEIGHT cfg)] in
    let cells := if argc =? 1 then populateRandomCells cfg rand stack else stack in
    if argc =? 2 then
      match readInput cfg fs cells argv1 with
      | ReadSuccess cells =>
          let r := main_loop cfg inputs (loop_start cells) in mkRun window (fst r) (snd r)
      | ReadFailure d _ => mkRun (window ++ [AStderr d]) [] (Exited EXIT_FAILURE)
      | ReadUndefined => mkRun window [] Undefined
      end
    else
      let r := main_loop cfg inputs (loop_start cells) in mkRun window (fst r) (snd r).

(** ** The vocabulary of the specification

    The definitions below are not part of the program: they state, in the
    words of the specification, what the program is compared with. *)

(** The eight positions around a cell, as offsets. *)
Definition moore_offsets : list (Z * Z) :=
  [(-1, -1); (-1, 0); (-1, 1); (0, -1); (0, 1); (1, -1); (1, 0); (1, 1)].

(** The number of alive Moore neighbours of the cell (x, y): the cells
    around it, the cell itself excluded, positions outside the grid not
    counted. *)
Definition moore_neighbors (cfg : Config) (cells : Grid) (x y : Z) : Z :=
  fold_right Z.add 0
    (map (fun d =>
            if in_bounds cfg (x + fst d) (y + snd d)
            then Z.b2z (load cells (x + fst d) (y + snd d))
            else 0)
         moore_offsets).

(** The rule of Conway's Game of Life, B3/S23, on the number [n] of alive
    Moore neighbours. *)
Definition conway_rule (alive : bool) (n : Z) : bool :=
  if alive then (n =? 2) || (n =? 3) else (n =? 3).

(** The next generation of the whole grid under that rule. *)
Definition conway_step (cfg : Config) (cells : Grid) : Grid :=
  map (fun x =>
         map (fun y => conway_rule (load cells x y) (moore_neighbors cfg cells x y))
             (upto (N_CELLS_COL cfg)))
      (upto (N_CELLS_ROW cfg)).

(** The positions of the array in the order [for y ... for x ...] visits them. *)
Definition positions (cfg : Config) : list (Z * Z) :=
  flat_map (fun y => map (fun x => (x, y)) (upto (N_CELLS_ROW cfg))) (upto (N_CELLS_COL cfg)).

(** The iterations that take place when the environment offers [inputs]:
    all up to and including the first one in which a quit event is polled. *)
Fixpoint executed (inputs : list FrameInput) : list FrameInput :=
  match inputs with
  | [] => []
  | fi :: later =>
      if poll_events (events fi) false then [fi] else fi :: executed later
  end.



(** The characters of the input format. *)
Definition is_cell_char (b : ascii) : bool :=
  Ascii.eqb b "#"%char || Ascii.eqb b "."%char.

Definition is_format_char (b : ascii) : bool :=
  is_cell_char b || Ascii.eqb b newline.

(** The array as left by a call of [readInput] that returns. *)
Definition cells_after (r : ReadResult) : option Grid :=
  match r with
  | ReadSuccess cells => Some cells
  | ReadFailure _ cells => Some cells
  | ReadUndefined => None
  end.

(** The cells addressed by the '#' and '.' characters that are consumed
    when reading starts at column [x] of row [y]: the column advances with
    each of them, a newline starts the next row, and reading stops at the
    end of the input, at a character of no meaning and at a byte taken for
    the end of the input. *)
Fixpoint addressed (input : list ascii) (x y : Z) : list (Z * Z) :=
  match input with
  | [] => []
  | b :: rest =>
      if Ascii.eqb b newline then addressed rest 0 (y + 1)
      else if is_cell_char b then (x, y) :: addressed rest (x + 1) y
      else []
  end.

(** A text block: the lines separated by newlines, with or without a
    newline after the last one. *)
Fixpoint text_block (lines : list (list ascii)) (trailing : bool) : list ascii :=
  match lines with
  | [] => []
  | [line] => line ++ (if trailing then [newline] else [])
  | line :: rest => line ++ newline :: text_block rest trailing
  end.

(** A text block has the dimensions of the grid and only '#' and '.' in
    its lines. *)
Definition matches_grid (cfg : Config) (lines : list (list ascii)) : Prop :=
  Z.of_nat (length lines) = N_CELLS_COL cfg /\
  Forall (fun line => Z.of_nat (length line) = N_CELLS_ROW cfg /\
                      Forall (fun b => is_cell_char b = true) line) lines.

(** The same as a test that can be evaluated. *)
Definition matches_gridb (cfg : Config) (lines : list (list ascii)) : bool :=
  (Z.of_nat (length lines) =? N_CELLS_COL cfg)
  && forallb (fun line => (Z.of_nat (length line) =? N_CELLS_ROW cfg)
                          && forallb is_cell_char line) lines.

(** No cell of the array is alive. *)
Definition all_dead (cells : Grid) : bool :=
  forallb (forallb negb) cells.

(** The rectangle [drawScreen] fills for the cell (x, y). *)
Definition cell_rect (cfg : Config) (p : Z * Z) : SurfaceOp :=
  FillRect (fst p * CELL_SIZE cfg) (snd p * CELL_SIZE cfg)
           (CELL_SIZE cfg) (CELL_SIZE cfg) COLOR.

(** The events on which the loop sets [quit]. *)
Definition is_quit_event (e : Event) : bool :=
  match e with
  | SDL_QUIT => true
  | SDL_KEYDOWN sym => sym =? SDLK_ESCAPE
  | SDL_OTHER => false
  end.

(** ** Example inputs *)

(** The array of dimensions [cfg] whose alive cells are those listed. *)
Definition place (cfg : Config) (alive : list (Z * Z)) : Grid :=
  fold_left (fun g p => store g (fst p) (snd p) true) alive (blank cfg).

(** Three alive cells in the corner: (0,0) is alive with two alive
    neighbours, (1,1) is dead with three. *)
Definition corner_trio : Grid := place source_config [(0, 0); (1, 0); (0, 1)].

(** An alive cell (1,1) with its four orthogonal neighbours alive. *)
Definition plus_shape : Grid :=
  place source_config [(1, 1); (0, 1); (2, 1); (1, 0); (1, 2)].

(** A frame that takes 1 ms without events, one that takes 10 ms in which
    the escape key is pressed, and 26 frames ending with the latter. *)
Definition idle_frame : FrameInput :=
  {| events := [SDL_OTHER]; startTicks := 100; endTicks := 101 |}.

Definition escape_frame : FrameInput :=
  {| events := [SDL_KEYDOWN SDLK_ESCAPE]; startTicks := 200; endTicks := 210 |}.

Definition some_frames : list FrameInput :=
  repeat idle_frame 25 ++ [escape_frame; idle_frame].

(** The name given on the command line in the examples. *)
Definition example_name : string := "glider.txt"%string.

(** A file system in which every name opens the same content. *)
Definition only_file (content : list ascii) : string -> option (list ascii) :=
  fun _ => Some content.

(** A file that consists of the single byte 0xFF. *)
Definition byte_ff_file : list ascii := ["255"%char].

(** A file with an alive cell followed by a character of no meaning. *)
Definition alive_then_x_file : list ascii := ["#"%char; "x"%char].

(** A text of the dimensions of [source_config]: 60 lines of 80 characters
    in a chequerboard pattern. *)
Definition chequer_lines : list (list ascii) :=
  map (fun y => map (fun x => if Nat.even (x + y) then "#"%char else "."%char) (seq 0 80))
      (seq 0 60).

(** The corner trio with one more alive cell far from the corner. *)
Definition corner_trio_and_far : Grid :=
  place source_config [(0, 0); (1, 0); (0, 1); (50, 50)].

(** A frame during which the millisecond clock wraps around. *)
Definition wrapping_frame : FrameInput :=
  {| events := []; startTicks := 2 ^ 32 - 2; endTicks := 1 |}.

(** A pseudo-random sequence for the examples. *)
Definition example_rand (k : nat) : Z := Z.of_nat (k * k + k / 3).

(** A file whose first line has one character more than the grid of
    [source_config] is wide. *)
Definition long_line_file : list ascii := repeat "#"%char 81.

(** A text of three lines of different lengths. *)
Definition ragged_lines : list (list ascii) :=
  [["#"%char; "."%char; "#"%char]; []; ["."%char; "#"%char]].

(** * Properties *)

(** ** The array: loads, stores and whole-array loops *)

Section Array.
Variable cfg : Config.

Lemma in_bounds_spec (x y : Z) :
  in_bounds cfg x y = true <-> (0 <= x < N_CELLS_ROW cfg /\ 0 <= y < N_CELLS_COL cfg).
Proof. unfold in_bounds. rewrite !andb_true_iff. lia. Qed.

Lemma well_formedb_spec (cells : Grid) :
  well_formedb cfg cells = true -> well_formed cfg cells.
Proof.
  unfold well_formedb, well_formed. rewrite andb_true_iff, forallb_forall, Nat.eqb_eq.
  intros [Hlen Hcols]. split; [done|].
  apply Forall_forall. intros col Hin. apply Nat.eqb_eq, Hcols. by apply list_elem_of_In.
Qed.

Lemma well_formed_column (cells : Grid) (x : Z) :
  well_formed cfg cells -> 0 <= x < N_CELLS_ROW cfg ->
  exists col, cells !! Z.to_nat x = Some col /\ length col = Z.to_nat (N_CELLS_COL cfg).
Proof.
  intros [Hlen Hcols] Hx.
  destruct (lookup_lt_is_Some_2 cells (Z.to_nat x)) as [col Hcol]; [lia|].
  exists col. split; [done|].
  rewrite Forall_forall in Hcols. apply Hcols.
  apply list_elem_of_lookup. eauto.
Qed.

Lemma store_well_formed (cells : Grid) (x y : Z) (v : bool) :
  well_formed cfg cells -> well_formed cfg (store cells x y v).
Proof.
  intros [Hlen Hcols]. unfold store. split.
  - by rewrite length_alter.
  - rewrite Forall_forall in *. intros col Hin.
    apply list_elem_of_lookup in Hin as [i Hi].
    rewrite list_lookup_alter in Hi. case_decide.
    + apply fmap_Some in Hi as (old & Hold & ->).
      rewrite length_insert. apply Hcols, list_elem_of_lookup. eauto.
    + apply Hcols, list_elem_of_lookup. eauto.
Qed.

Lemma load_store (cells : Grid) (x y x' y' : Z) (v : bool) :
  well_formed cfg cells ->
  in_bounds cfg x y = true -> in_bounds cfg x' y' = true ->
  load (store cells x y v) x' y'
  = if decide (x' = x /\ y' = y) then v else load cells x' y'.
Proof.
  intros Hwf Hb Hb'. apply in_bounds_spec in Hb as [Hx Hy], Hb' as [Hx' Hy'].
  unfold load, store. rewrite list_lookup_alter.
  destruct (well_formed_column cells x' Hwf Hx') as (col & Hcol & Hlen).
  rewrite Hcol. case_decide as Hxx; simpl.
  - assert (x' = x) by lia. subst x'. rewrite Hcol. simpl.
    rewrite list_lookup_insert by lia.
    repeat case_decide; try done; lia.
  - case_decide; [lia | done].
Qed.

Lemma grid_ext (g1 g2 : Grid) :
  well_formed cfg g1 -> well_formed cfg g2 ->
  (forall x y, in_bounds cfg x y = true -> load g1 x y = load g2 x y) ->
  g1 = g2.
Proof.
  intros Hwf1 Hwf2 Heq. apply list_eq. intros i.
  destruct (decide (i < Z.to_nat (N_CELLS_ROW cfg))%nat) as [Hi|Hi].
  - assert (Hx : 0 <= Z.of_nat i < N_CELLS_ROW cfg) by lia.
    destruct (well_formed_column g1 _ Hwf1 Hx) as (c1 & Hc1 & Hl1).
    destruct (well_formed_column g2 _ Hwf2 Hx) as (c2 & Hc2 & Hl2).
    rewrite Nat2Z.id in Hc1, Hc2. rewrite Hc1, Hc2. f_equal.
    apply list_eq. intros j.
    destruct (decide (j < Z.to_nat (N_CELLS_COL cfg))%nat) as [Hj|Hj].
    + specialize (Heq (Z.of_nat i) (Z.of_nat j)).
      unfold load in Heq. rewrite !Nat2Z.id, Hc1, Hc2 in Heq.
      destruct (lookup_lt_is_Some_2 c1 j) as [b1 Hb1]; [lia|].
      destruct (lookup_lt_is_Some_2 c2 j) as [b2 Hb2]; [lia|].
      rewrite Hb1, Hb2 in *. simpl in Heq. f_equal. apply Heq.
      apply in_bounds_spec. lia.
    + rewrite !lookup_ge_None_2 by lia. done.
  - destruct Hwf1 as [L1 _], Hwf2 as [L2 _].
    rewrite !lookup_ge_None_2 by lia. done.
Qed.

Lemma blank_well_formed : well_formed cfg (blank cfg).
Proof.
  unfold blank. split.
  - by rewrite length_replicate.
  - apply Forall_forall. intros col Hin.
    apply elem_of_replicate in Hin as [-> _].
    by rewrite length_replicate.
Qed.

Lemma in_positions (x y : Z) : (x, y) ∈ positions cfg <-> in_bounds cfg x y = true.
Proof.
  unfold positions, upto. rewrite list_elem_of_In, in_flat_map, in_bounds_spec. split.
  - intros (y' & Hy & Hin). apply in_map_iff in Hin as (x' & Heq & Hx).
    simplify_eq. apply list_elem_of_In, elem_of_seqZ in Hy, Hx. lia.
  - intros [Hx Hy]. exists y. split.
    + apply list_elem_of_In, elem_of_seqZ. lia.
    + apply in_map_iff. exists x. split; [done|].
      apply list_elem_of_In, elem_of_seqZ. lia.
Qed.

Lemma for_each_cell_positions {A : Type} (body : Z -> Z -> A -> A) (init : A) :
  for_each_cell cfg body init
  = fold_left (fun acc p => body (fst p) (snd p) acc) (positions cfg) init.
Proof.
  unfold for_each_cell, positions.
  generalize (upto (N_CELLS_ROW cfg)) as xs. intros xs.
  generalize init. induction (upto (N_CELLS_COL cfg)) as [|y ys IH]; intros a; simpl.
  - done.
  - rewrite fold_left_app, IH. f_equal.
    clear. revert a. induction xs as [|x xs IHx]; intros a; simpl; [done|]. apply IHx.
Qed.

(** A sequence of stores of values that do not depend on the array being
    written. *)
Lemma fold_store (f : Z -> Z -> bool) (l : list (Z * Z)) (g : Grid) :
  well_formed cfg g ->
  (forall p, p ∈ l -> in_bounds cfg (fst p) (snd p) = true) ->
  let g' := fold_left (fun acc p => store acc (fst p) (snd p) (f (fst p) (snd p))) l g in
  well_formed cfg g' /\
  forall x y, in_bounds cfg x y = true ->
    load g' x y = if decide ((x, y) ∈ l) then f x y else load g x y.
Proof.
  revert g. induction l as [|[px py] l IH]; intros g Hwf Hin; cbn [fold_left fst snd].
  - split; [done|]. intros x y _. case_decide as Hnil; [by apply elem_of_nil in Hnil | done].
  - destruct (IH (store g px py (f px py))) as [Hwf' Hload].
    + by apply store_well_formed.
    + intros p Hp. apply Hin. by right.
    + split; [done|]. intros x y Hb. rewrite (Hload x y Hb).
      assert (Hpb : in_bounds cfg px py = true) by (apply (Hin (px, py)); by left).
      rewrite load_store by done.
      destruct (decide ((x, y) ∈ (px, py) :: l)) as [Hc|Hc];
        destruct (decide ((x, y) ∈ l)) as [Hl|Hl];
        destruct (decide (x = px /\ y = py)) as [[-> ->]|Hne]; try done; exfalso.
      all: try (apply Hc, elem_of_cons; auto; fail).
      apply elem_of_cons in Hc as [[= -> ->]|?]; auto.
Qed.

Lemma fill_cells (f : Z -> Z -> bool) (g : Grid) :
  well_formed cfg g ->
  let g' := for_each_cell cfg (fun x y acc => store acc x y (f x y)) g in
  well_formed cfg g' /\
  forall x y, in_bounds cfg x y = true -> load g' x y = f x y.
Proof.
  intros Hwf. simpl. rewrite for_each_cell_positions.
  destruct (fold_store f (positions cfg) g Hwf) as [Hwf' Hload].
  - intros [x y] Hin. by apply in_positions.
  - split; [done|]. intros x y Hb. rewrite (Hload x y Hb).
    case_decide as Hin; [done|]. by apply in_positions in Hb.
Qed.

End Array.

(** ** updateCells *)

Ltac well_formed_by_evaluation :=
  apply well_formedb_spec; vm_compute; reflexivity.

(** The tests of the [continue] statements when the cell is (0, 0). *)
Ltac corner_tests :=
  change (0 + -1 <? 0) with true;
  change (0 + 0 <? 0) with false;
  change (0 + 1 <? 0) with false;
  change (0 + 0) with 0;
  change (0 + 1) with 1;
  cbn [orb].

Ltac valid_config_by_evaluation :=
  unfold valid_config; repeat split; vm_compute; congruence.

Ltac cmp_cases :=
  repeat match goal with
  | |- context [Z.geb ?a ?b] => rewrite (Z.geb_leb a b)
  | |- context [Z.gtb ?a ?b] => rewrite (Z.gtb_ltb a b)
  | |- context [Z.ltb ?a ?b] => destruct (Z.ltb_spec a b); try lia
  | |- context [Z.leb ?a ?b] => destruct (Z.leb_spec a b); try lia
  | |- context [Z.eqb ?a ?b] => destruct (Z.eqb_spec a b); try lia
  end.

Section Transition.
Variable cfg : Config.

Lemma updateCells_from_spec (newCells cells : Grid) :
  well_formed cfg newCells -> well_formed cfg cells ->
  well_formed cfg (updateCells_from cfg newCells cells) /\
  forall x y, in_bounds cfg x y = true ->
    load (updateCells_from cfg newCells cells) x y
    = next_state (load cells x y) (count_neighbors cfg cells x y).
Proof.
  intros Hnew Hwf. unfold updateCells_from.
  destruct (fill_cells cfg
              (fun x y => next_state (load cells x y) (count_neighbors cfg cells x y))
              newCells Hnew) as [Hwf1 Hload1].
  set (filled := for_each_cell cfg _ newCells) in *.
  destruct (fill_cells cfg (fun x y => load filled x y) cells Hwf) as [Hwf2 Hload2].
  split; [done|]. intros x y Hb. rewrite (Hload2 x y Hb). by apply Hload1.
Qed.

(** The content of the local array on entry does not matter. *)
Lemma updateCells_from_any (new1 new2 cells : Grid) :
  well_formed cfg new1 -> well_formed cfg new2 -> well_formed cfg cells ->
  updateCells_from cfg new1 cells = updateCells_from cfg new2 cells.
Proof.
  intros H1 H2 Hwf.
  destruct (updateCells_from_spec new1 cells H1 Hwf) as [Hw1 Hl1].
  destruct (updateCells_from_spec new2 cells H2 Hwf) as [Hw2 Hl2].
  apply (grid_ext cfg); [done..|]. intros x y Hb. by rewrite Hl1, Hl2.
Qed.

Lemma updateCells_well_formed (cells : Grid) :
  well_formed cfg cells -> well_formed cfg (updateCells cfg cells).
Proof.
  intros Hwf. apply updateCells_from_spec; [apply blank_well_formed | done].
Qed.

Lemma updateCells_load (cells : Grid) (x y : Z) :
  well_formed cfg cells -> in_bounds cfg x y = true ->
  load (updateCells cfg cells) x y
  = next_state (load cells x y) (count_neighbors cfg cells x y).
Proof.
  intros Hwf Hb. apply updateCells_from_spec; [apply blank_well_formed | done..].
Qed.

(** The tests of the two [continue] statements and of [in_bounds] at a
    coordinate inside the grid. *)
Lemma clip_tests (n v : Z) :
  0 <= v < n ->
  (v + 0 <? 0) = false /\ (v + 0 >=? n) = false /\
  (v + -1 >=? n) = false /\ (v + 1 <? 0) = false /\
  (0 <=? v + 0) = true /\ (v + 0 <? n) = true /\
  (0 <=? v + -1) = negb (v + -1 <? 0) /\ (v + -1 <? n) = true /\
  (0 <=? v + 1) = true /\ (v + 1 <? n) = negb (v + 1 >=? n).
Proof. intros Hv. repeat split; cmp_cases; done. Qed.

(** The count of the program is the number of alive Moore neighbours plus
    the cell itself: the loops do not skip [dx == 0 && dy == 0]. *)
Lemma count_neighbors_moore (cells : Grid) (x y : Z) :
  in_bounds cfg x y = true ->
  count_neighbors cfg cells x y
  = moore_neighbors cfg cells x y + Z.b2z (load cells x y).
Proof.
  intros Hb. apply in_bounds_spec in Hb as [Hx Hy].
  destruct (clip_tests _ _ Hx) as (X1 & X2 & X3 & X4 & X5 & X6 & X7 & X8 & X9 & X10).
  destruct (clip_tests _ _ Hy) as (Y1 & Y2 & Y3 & Y4 & Y5 & Y6 & Y7 & Y8 & Y9 & Y10).
  unfold count_neighbors, moore_neighbors, scan_block, in_bounds, deltas, moore_offsets.
  cbn [fold_left fold_right map fst snd].
  rewrite X1, X2, X3, X4, X5, X6, X7, X8, X9, X10, Y1, Y2, Y3, Y4, Y5, Y6, Y7, Y8, Y9, Y10.
  rewrite !Z.add_0_r.
  destruct (x + -1 <? 0), (x + 1 >=? N_CELLS_ROW cfg),
           (y + -1 <? 0), (y + 1 >=? N_CELLS_COL cfg);
    cbn [orb andb negb]; lia.
Qed.

(** Two bodies run through the loops of lines 114-120 stay related if each
    visit keeps them related: first the inner loop, then both. *)
Lemma scan_column_rel {A B : Type} (R : A -> B -> Prop)
    (va : Z -> Z -> A -> A) (vb : Z -> Z -> B -> B) (i y : Z) (dys : list Z) :
  (forall dy a b, In dy dys -> 0 <= y + dy < N_CELLS_COL cfg ->
     R a b -> R (va i (y + dy) a) (vb i (y + dy) b)) ->
  forall a b, R a b ->
    R (fold_left
         (fun acc dy =>
            if (y + dy <? 0) || (y + dy >=? N_CELLS_COL cfg) then acc
            else va i (y + dy) acc) dys a)
      (fold_left
         (fun acc dy =>
            if (y + dy <? 0) || (y + dy >=? N_CELLS_COL cfg) then acc
            else vb i (y + dy) acc) dys b).
Proof.
  induction dys as [|dy dys IH]; intros Hstep a b Hab; cbn [fold_left]; [done|].
  apply IH.
  { intros dy' a' b' Hdy'. apply Hstep. by right. }
  destruct ((y + dy <? 0) || (y + dy >=? N_CELLS_COL cfg)) eqn:Ey; [done|].
  apply Hstep; [by left | | done].
  apply orb_false_elim in Ey as [Ey1 Ey2]. rewrite Z.geb_leb in Ey2. lia.
Qed.

Lemma scan_block_rel {A B : Type} (R : A -> B -> Prop)
    (va : Z -> Z -> A -> A) (vb : Z -> Z -> B -> B) (x y : Z) :
  (forall dx dy a b, In dx deltas -> In dy deltas ->
     in_bounds cfg (x + dx) (y + dy) = true ->
     R a b -> R (va (x + dx) (y + dy) a) (vb (x + dx) (y + dy) b)) ->
  forall a b, R a b -> R (scan_block cfg x y va a) (scan_block cfg x y vb b).
Proof.
  unfold scan_block. generalize deltas at 1 4 6 as dxs.
  induction dxs as [|dx dxs IHx]; intros Hstep a b Hab; cbn [fold_left]; [done|].
  apply IHx.
  { intros dx' dy a' b' Hdx. apply Hstep. by right. }
  destruct ((x + dx <? 0) || (x + dx >=? N_CELLS_ROW cfg)) eqn:Ex; [done|].
  apply scan_column_rel; [|done].
  intros dy a' b' Hdy Hy. apply Hstep; [by left | done |].
  apply in_bounds_spec. apply orb_false_elim in Ex as [Ex1 Ex2].
  rewrite Z.geb_leb in Ex2. lia.
Qed.

Lemma in_deltas (d : Z) : In d deltas -> -1 <= d <= 1.
Proof. unfold deltas. cbn [In]. lia. Qed.

Lemma next_state_conway (alive : bool) (n : Z) :
  next_state alive (n + Z.b2z alive) = conway_rule alive n.
Proof.
  unfold next_state, conway_rule. destruct alive; cbn [Z.b2z];
    cmp_cases; cbn [orb]; try done; lia.
Qed.

Lemma conway_step_well_formed (cells : Grid) : well_formed cfg (conway_step cfg cells).
Proof.
  unfold conway_step, upto. split.
  - by rewrite length_map, length_seqZ.
  - apply Forall_forall. intros col Hin.
    apply list_elem_of_In, in_map_iff in Hin as (x & <- & _).
    by rewrite length_map, length_seqZ.
Qed.

Lemma conway_step_load (cells : Grid) (x y : Z) :
  in_bounds cfg x y = true ->
  load (conway_step cfg cells) x y
  = conway_rule (load cells x y) (moore_neighbors cfg cells x y).
Proof.
  intros Hb. apply in_bounds_spec in Hb as [Hx Hy].
  unfold load at 1. unfold conway_step, upto.
  rewrite !list_lookup_fmap, lookup_seqZ_lt by lia. simpl.
  rewrite !list_lookup_fmap, lookup_seqZ_lt by lia. simpl.
  by rewrite !Z2Nat.id by lia.
Qed.

End Transition.

(** ** The transition rule *)

(** C1, as stated, fails: in the grid [corner_trio] the alive cell (0,0) has
    2 alive Moore neighbours and stays alive, and in [plus_shape] the alive
    cell (1,1) has 4 alive Moore neighbours and dies. *)
Lemma alive_rule_3_4_refuted :
  (well_formed source_config corner_trio /\
   load corner_trio 0 0 = true /\
   ~ (load (updateCells source_config corner_trio) 0 0 = true
      <-> 3 <= moore_neighbors source_config corner_trio 0 0 <= 4)) /\
  (well_formed source_config plus_shape /\
   load plus_shape 1 1 = true /\
   ~ (load (updateCells source_config plus_shape) 1 1 = true
      <-> 3 <= moore_neighbors source_config plus_shape 1 1 <= 4)).
Proof.
  split.
  - split; [well_formed_by_evaluation|].
    split; [vm_compute; reflexivity|].
    assert (Hm : moore_neighbors source_config corner_trio 0 0 = 2) by (vm_compute; reflexivity).
    assert (Hn : load (updateCells source_config corner_trio) 0 0 = true)
      by (vm_compute; reflexivity).
    rewrite Hm, Hn. intros [H _]. specialize (H eq_refl). lia.
  - split; [well_formed_by_evaluation|].
    split; [vm_compute; reflexivity|].
    assert (Hm : moore_neighbors source_config plus_shape 1 1 = 4) by (vm_compute; reflexivity).
    assert (Hn : load (updateCells source_config plus_shape) 1 1 = false)
      by (vm_compute; reflexivity).
    rewrite Hm, Hn. intros [_ H]. assert (false = true) by (apply H; lia). done.
Qed.

(** C1, amended: an alive cell stays alive exactly when the number of its
    alive Moore neighbours, the cell itself excluded, is 2 or 3; this is
    when the count the program computes, which includes the cell itself,
    is 3 or 4. *)
Theorem alive_cell_survives_iff (cfg : Config) (cells : Grid) (x y : Z) :
  well_formed cfg cells -> in_bounds cfg x y = true -> load cells x y = true ->
  count_neighbors cfg cells x y = moore_neighbors cfg cells x y + 1 /\
  (load (updateCells cfg cells) x y = true <-> 3 <= count_neighbors cfg cells x y <= 4) /\
  (load (updateCells cfg cells) x y = true <-> 2 <= moore_neighbors cfg cells x y <= 3) /\
  (load (updateCells cfg cells) x y = false
   <-> moore_neighbors cfg cells x y < 2 \/ moore_neighbors cfg cells x y > 3).
Proof.
  intros Hwf Hb Halive.
  rewrite updateCells_load, count_neighbors_moore, Halive by done.
  cbn [Z.b2z]. unfold next_state.
  split; [done|]. cmp_cases; intuition (try done; try lia).
Qed.

Lemma alive_cell_survives_iff_witness :
  well_formed source_config corner_trio /\
  in_bounds source_config 0 0 = true /\
  load corner_trio 0 0 = true /\
  (load (updateCells source_config corner_trio) 0 0 = true
   <-> 2 <= moore_neighbors source_config corner_trio 0 0 <= 3).
Proof.
  assert (Hwf : well_formed source_config corner_trio)
    by well_formed_by_evaluation.
  assert (Hb : in_bounds source_config 0 0 = true) by (vm_compute; reflexivity).
  assert (Ha : load corner_trio 0 0 = true) by (vm_compute; reflexivity).
  exact (conj Hwf (conj Hb (conj Ha
    (proj1 (proj2 (proj2 (alive_cell_survives_iff source_config corner_trio 0 0 Hwf Hb Ha))))))).
Defined.

(** C2: [updateCells] computes the step of Conway's Game of Life, B3/S23:
    the next array is the one the rule yields from the numbers of alive
    Moore neighbours, cell by cell and as a whole, because the count of the
    program is that number plus the cell itself. *)
Theorem updateCells_is_conway (cfg : Config) (cells : Grid) :
  well_formed cfg cells ->
  updateCells cfg cells = conway_step cfg cells /\
  forall x y, in_bounds cfg x y = true ->
    count_neighbors cfg cells x y
    = moore_neighbors cfg cells x y + Z.b2z (load cells x y) /\
    load (updateCells cfg cells) x y
    = (if load cells x y
       then (moore_neighbors cfg cells x y =? 2) || (moore_neighbors cfg cells x y =? 3)
       else moore_neighbors cfg cells x y =? 3).
Proof.
  intros Hwf.
  assert (Hcell : forall x y, in_bounds cfg x y = true ->
            load (updateCells cfg cells) x y
            = conway_rule (load cells x y) (moore_neighbors cfg cells x y)).
  { intros x y Hb.
    by rewrite updateCells_load, count_neighbors_moore, next_state_conway. }
  split.
  - apply (grid_ext cfg).
    + by apply updateCells_well_formed.
    + apply conway_step_well_formed.
    + intros x y Hb. by rewrite Hcell, conway_step_load.
  - intros x y Hb. split; [by apply count_neighbors_moore|].
    rewrite Hcell by done. reflexivity.
Qed.

Lemma updateCells_is_conway_witness :
  well_formed source_config corner_trio /\
  updateCells source_config corner_trio = conway_step source_config corner_trio.
Proof.
  assert (Hwf : well_formed source_config corner_trio)
    by well_formed_by_evaluation.
  exact (conj Hwf (proj1 (updateCells_is_conway source_config corner_trio Hwf))).
Defined.

(** C3: a dead cell is alive in the next generation exactly when the number
    of its alive Moore neighbours is 3; for a dead cell this number is the
    count of the program. *)
Theorem dead_cell_born_iff (cfg : Config) (cells : Grid) (x y : Z) :
  well_formed cfg cells -> in_bounds cfg x y = true -> load cells x y = false ->
  count_neighbors cfg cells x y = moore_neighbors cfg cells x y /\
  (load (updateCells cfg cells) x y = true <-> moore_neighbors cfg cells x y = 3) /\
  (moore_neighbors cfg cells x y <> 3 -> load (updateCells cfg cells) x y = false).
Proof.
  intros Hwf Hb Hdead.
  rewrite updateCells_load, count_neighbors_moore, Hdead by done.
  cbn [Z.b2z]. rewrite Z.add_0_r. unfold next_state.
  split; [done|]. cmp_cases; intuition (try done; try lia).
Qed.

Lemma dead_cell_born_iff_witness :
  well_formed source_config corner_trio /\
  in_bounds source_config 1 1 = true /\
  load corner_trio 1 1 = false /\
  (load (updateCells source_config corner_trio) 1 1 = true
   <-> moore_neighbors source_config corner_trio 1 1 = 3).
Proof.
  assert (Hwf : well_formed source_config corner_trio)
    by well_formed_by_evaluation.
  assert (Hb : in_bounds source_config 1 1 = true) by (vm_compute; reflexivity).
  assert (Hd : load corner_trio 1 1 = false) by (vm_compute; reflexivity).
  exact (conj Hwf (conj Hb (conj Hd
    (proj1 (proj2 (dead_cell_born_iff source_config corner_trio 1 1 Hwf Hb Hd)))))).
Defined.

(** C4: the loops that count read the array only at positions inside the
    grid and at distance at most 1 from the cell, the count is the number
    of alive cells among exactly these positions, and around the corner
    (0,0) at most three positions other than the corner itself are read, so
    that at most 3 neighbours are counted there. *)
Theorem neighbor_count_clipped (cfg : Config) (cells : Grid) (x y : Z) :
  Forall (fun p => in_bounds cfg (fst p) (snd p) = true /\
                   -1 <= fst p - x <= 1 /\ -1 <= snd p - y <= 1)
         (visited cfg x y) /\
  count_neighbors cfg cells x y
  = fold_right Z.add 0 (map (fun p => Z.b2z (load cells (fst p) (snd p))) (visited cfg x y)) /\
  Z.of_nat (length (filter (fun p => p <> (0, 0)) (visited cfg 0 0))) <= 3 /\
  count_neighbors cfg cells 0 0 - Z.b2z (load cells 0 0) <= 3 /\
  moore_neighbors cfg cells 0 0 <= 3.
Proof.
  split; [|split; [|split; [|split]]].
  - refine (scan_block_rel cfg
             (fun (acc _ : list (Z * Z)) =>
                Forall (fun p => in_bounds cfg (fst p) (snd p) = true /\
                                 -1 <= fst p - x <= 1 /\ -1 <= snd p - y <= 1) acc)
             (fun i j acc => acc ++ [(i, j)]) (fun i j acc => acc ++ [(i, j)]) x y
             _ [] [] _); [|constructor].
    intros dx dy a _ Hdx%in_deltas Hdy%in_deltas Hb Ha.
    apply Forall_app. split; [done|].
    apply Forall_cons. split; [|constructor].
    cbn [fst snd]. split; [done | lia].
  - refine (scan_block_rel cfg
             (fun (n : Z) (acc : list (Z * Z)) =>
                n = fold_right Z.add 0
                      (map (fun p => Z.b2z (load cells (fst p) (snd p))) acc))
             (fun i j n => n + Z.b2z (load cells i j)) (fun i j acc => acc ++ [(i, j)]) x y
             _ 0 [] _); [|done].
    intros dx dy n acc _ _ _ ->. rewrite map_app, fold_right_app. cbn [map fold_right fst snd].
    generalize (Z.b2z (load cells (x + dx) (y + dy))) as v. intros v.
    induction (map _ acc) as [|w ws IH]; cbn [fold_right]; [lia|]. rewrite <- IH. lia.
  - unfold visited, scan_block, deltas. cbn [fold_left]. corner_tests.
    destruct (0 >=? N_CELLS_ROW cfg), (1 >=? N_CELLS_ROW cfg),
             (0 >=? N_CELLS_COL cfg), (1 >=? N_CELLS_COL cfg);
      cbn [app]; vm_compute; done.
  - unfold count_neighbors, scan_block, deltas. cbn [fold_left]. corner_tests.
    destruct (0 >=? N_CELLS_ROW cfg), (1 >=? N_CELLS_ROW cfg),
             (0 >=? N_CELLS_COL cfg), (1 >=? N_CELLS_COL cfg);
      cbn [orb];
      destruct (load cells 0 0), (load cells 0 1), (load cells 1 0), (load cells 1 1);
      cbn [Z.b2z]; lia.
  - unfold moore_neighbors, moore_offsets, in_bounds.
    cbn [fold_right map fst snd].
    change (0 <=? 0 + -1) with false. cbn [andb].
    change (0 + 0) with 0. change (0 + 1) with 1.
    change (0 <=? 0) with true. change (0 <=? 1) with true. cbn [andb].
    destruct (0 <? N_CELLS_ROW cfg), (1 <? N_CELLS_ROW cfg),
             (0 <? N_CELLS_COL cfg), (1 <? N_CELLS_COL cfg);
      cbn [andb];
      destruct (load cells 0 1), (load cells 1 0), (load cells 1 1);
      cbn [Z.b2z]; lia.
Qed.

(** ** The main loop *)

Section MainLoop.
Variable cfg : Config.
Hypothesis Hvalid : valid_config cfg.





End MainLoop.

Section MainLoopTrace.
Variable cfg : Config.

Lemma frame_step_quit (fi : FrameInput) (st : LoopState) :
  quit st = false ->
  quit (snd (frame_step cfg fi st)) = poll_events (events fi) false.
Proof. intros Hq. unfold frame_step. cbn [snd quit]. by rewrite Hq. Qed.

Lemma main_loop_length (inputs : list FrameInput) (st : LoopState) :
  quit st = false ->
  length (fst (main_loop cfg inputs st)) = length (executed inputs).
Proof.
  revert st. induction inputs as [|fi later IH]; intros st Hq; cbn [main_loop executed].
  - by rewrite Hq.
  - rewrite Hq. cbn [fst length].
    pose proof (frame_step_quit fi st Hq) as Hq'.
    destruct (poll_events (events fi) false) eqn:Hpoll.
    + destruct later; cbn [main_loop]; rewrite Hq'; done.
    + cbn [length]. f_equal. by apply IH.
Qed.

Lemma main_loop_lookup (inputs : list FrameInput) (st : LoopState) (k : nat) (fi : FrameInput) :
  quit st = false ->
  executed inputs !! k = Some fi ->
  inputs !! k = Some fi /\
  fst (main_loop cfg inputs st) !! k
  = Some (fst (frame_step cfg fi (run_frames cfg (take k inputs) st))).
Proof.
  revert st k. induction inputs as [|fi0 later IH]; intros st k Hq Hk; [done|].
  cbn [main_loop executed] in *. rewrite Hq. cbn [fst].
  pose proof (frame_step_quit fi0 st Hq) as Hq'.
  destruct k as [|k].
  - assert (fi0 = fi) as -> by (destruct (poll_events (events fi0) false); by simplify_eq/=).
    done.
  - destruct (poll_events (events fi0) false) eqn:Hpoll; [done|].
    cbn in Hk. destruct (IH (snd (frame_step cfg fi0 st)) k Hq' Hk) as [Hin Hrun].
    split; [done|]. cbn. exact Hrun.
Qed.

Lemma main_loop_status (inputs : list FrameInput) (st : LoopState) :
  quit st = false ->
  snd (main_loop cfg inputs st)
  = if existsb (fun fi => poll_events (events fi) false) inputs
    then Exited EXIT_SUCCESS else Running.
Proof.
  revert st. induction inputs as [|fi later IH]; intros st Hq; cbn [main_loop existsb].
  - by rewrite Hq.
  - rewrite Hq. cbn [snd].
    pose proof (frame_step_quit fi st Hq) as Hq'.
    destruct (poll_events (events fi) false) eqn:Hpoll; cbn [orb].
    + destruct later; cbn [main_loop]; rewrite Hq'; done.
    + by apply IH.
Qed.


End MainLoopTrace.



(** The time measured for a frame is the difference of the two readings of
    the clock, taken modulo 2^32. *)
Lemma frameTime_difference (fi : FrameInput) :
  frameTime fi = (endTicks fi - startTicks fi) mod 2 ^ 32.
Proof.
  unfold frameTime, to_Uint32.
  rewrite Zminus_mod_idemp_l, Zminus_mod_idemp_r. reflexivity.
Qed.

(** C9: the argument of [SDL_Delay] at the end of a frame is
    max(0, 1000/FPS - elapsed), the division being that of C on integers
    and elapsed the difference of the reading of the millisecond clock at
    the end of the frame and the reading at its start, modulo 2^32: nothing
    when the frame took longer than 1000/FPS, what is left of 1000/FPS
    otherwise. When the clock has advanced by d ms during the frame, the
    delay is max(0, 1000/FPS - d). It is the last thing an iteration does,
    whatever the earlier frames took. *)
Theorem frame_delay_is_remainder (cfg : Config) (fi : FrameInput) :
  valid_config cfg ->
  let elapsed := (endTicks fi - startTicks fi) mod 2 ^ 32 in
  frameTime fi = elapsed /\
  frame_delay cfg fi = Z.max 0 (1000 ÷ FPS cfg - elapsed) /\
  1000 ÷ FPS cfg = 1000 / FPS cfg /\
  (elapsed > 1000 ÷ FPS cfg -> frame_delay cfg fi = 0) /\
  (elapsed <= 1000 ÷ FPS cfg -> frame_delay cfg fi = 1000 ÷ FPS cfg - elapsed) /\
  (forall d, 0 <= startTicks fi < 2 ^ 32 -> 0 <= d < 2 ^ 32 ->
     endTicks fi = (startTicks fi + d) mod 2 ^ 32 ->
     frame_delay cfg fi = Z.max 0 (1000 ÷ FPS cfg - d)) /\
  forall st : LoopState,
    last (fst (frame_step cfg fi st)) = Some (ADelay (Z.max 0 (1000 ÷ FPS cfg - elapsed))).
Proof.
  intros (_ & _ & _ & _ & Hfps & _) elapsed.
  assert (He : frameTime fi = elapsed) by apply frameTime_difference.
  assert (Hq : 1000 ÷ FPS cfg = 1000 / FPS cfg) by (apply Z.quot_div_nonneg; lia).
  assert (Hrange : 0 <= 1000 ÷ FPS cfg <= 1000).
  { rewrite Hq. split; [apply Z.div_pos; lia|].
    apply Z.div_le_upper_bound; nia. }
  assert (Ht : 0 <= elapsed < 2 ^ 32) by (apply Z.mod_pos_bound; lia).
  assert (Hd : frame_delay cfg fi = Z.max 0 (1000 ÷ FPS cfg - elapsed)).
  { unfold frame_delay, to_Uint32 at 1 2 3. rewrite He.
    rewrite (Z.mod_small (1000 ÷ FPS cfg)) by lia.
    destruct (Z.gtb_spec elapsed (1000 ÷ FPS cfg)); [lia|].
    rewrite Z.mod_small by lia. lia. }
  split; [done|]. split; [done|]. split; [done|]. rewrite Hd.
  split; [lia|]. split; [lia|]. split.
  - intros d Hs Hdr Hend. do 2 f_equal. subst elapsed. rewrite Hend.
    rewrite Zminus_mod_idemp_l.
    replace (startTicks fi + d - startTicks fi) with d by lia.
    apply Z.mod_small. lia.
  - intros st. unfold frame_step. cbn [fst]. rewrite Hd.
    destruct (frame st =? 0); reflexivity.
Qed.

Lemma frame_delay_is_remainder_witness :
  valid_config source_config /\
  frameTime idle_frame = (endTicks idle_frame - startTicks idle_frame) mod 2 ^ 32 /\
  frame_delay source_config idle_frame
  = Z.max 0 (1000 ÷ FPS source_config
             - (endTicks idle_frame - startTicks idle_frame) mod 2 ^ 32).
Proof.
  assert (Hvalid : valid_config source_config) by valid_config_by_evaluation.
  exact (conj Hvalid
    (conj (proj1 (frame_delay_is_remainder source_config idle_frame Hvalid))
          (proj1 (proj2 (frame_delay_is_remainder source_config idle_frame Hvalid))))).
Defined.

(** ** readInput *)

Section ReadInput.
Variable cfg : Config.

(** The value of the variable [c] tells which byte was read. *)
Lemma char_lit_cases (b : ascii) :
  (char_lit b = EOF <-> b = "255"%char) /\
  (char_lit b = char_lit newline <-> b = newline) /\
  (char_lit b = char_lit "#"%char <-> b = "#"%char) /\
  (char_lit b = char_lit "."%char <-> b = "."%char).
Proof.
  destruct b as [[] [] [] [] [] [] [] []]; vm_compute;
    repeat split; intros; congruence.
Qed.

Lemma read_loop_newline (rest : list ascii) (x y : Z) (cells : Grid) :
  read_loop cfg (newline :: rest) x y cells
  = if y + 1 <=? INT_MAX then read_loop cfg rest 0 (y + 1) cells else ReadUndefined.
Proof. reflexivity. Qed.

Lemma read_loop_cell (b : ascii) (rest : list ascii) (x y : Z) (cells : Grid) :
  is_cell_char b = true ->
  read_loop cfg (b :: rest) x y cells
  = if in_bounds cfg x y
    then read_loop cfg rest (x + 1) y (store cells x y (Ascii.eqb b "#"%char))
    else ReadUndefined.
Proof.
  unfold is_cell_char. intros [->%Ascii.eqb_eq | ->%Ascii.eqb_eq]%orb_true_iff; reflexivity.
Qed.

Lemma read_loop_byte_ff (rest : list ascii) (x y : Z) (cells : Grid) :
  read_loop cfg ("255"%char :: rest) x y cells = ReadSuccess cells.
Proof. reflexivity. Qed.

Lemma read_loop_unknown (b : ascii) (rest : list ascii) (x y : Z) (cells : Grid) :
  is_format_char b = false -> b <> "255"%char ->
  read_loop cfg (b :: rest) x y cells = ReadFailure (UnknownCharacter b) cells.
Proof.
  unfold is_format_char, is_cell_char. intros Hfmt Hff.
  apply orb_false_elim in Hfmt as [[Ha Hd]%orb_false_elim Hn].
  apply Ascii.eqb_neq in Ha, Hd, Hn.
  destruct (char_lit_cases b) as (He & Hnl & Hal & Hde).
  cbn [read_loop]. fold (char_lit b).
  destruct (Z.eqb_spec (char_lit b) EOF); [tauto|].
  destruct (Z.eqb_spec (char_lit b) (char_lit newline)); [tauto|].
  destruct (Z.eqb_spec (char_lit b) (char_lit "#"%char)); [tauto|].
  destruct (Z.eqb_spec (char_lit b) (char_lit "."%char)); [tauto|].
  reflexivity.
Qed.

(** What a call that returns leaves outside the cells it addresses. *)
Lemma read_loop_frame (input : list ascii) :
  forall (x0 y0 : Z) (cells cells' : Grid),
  well_formed cfg cells ->
  cells_after (read_loop cfg input x0 y0 cells) = Some cells' ->
  well_formed cfg cells' /\
  forall x y, in_bounds cfg x y = true -> (x, y) ∉ addressed input x0 y0 ->
    load cells' x y = load cells x y.
Proof.
  induction input as [|b rest IH]; intros x0 y0 cells cells' Hwf Hafter.
  - cbn in Hafter. by simplify_eq.
  - cbn [addressed]. destruct (Ascii.eqb_spec b newline) as [->|Hnl].
    + rewrite read_loop_newline in Hafter.
      destruct (y0 + 1 <=? INT_MAX); [|done]. by apply IH.
    + destruct (is_cell_char b) eqn:Hcell.
      * rewrite read_loop_cell in Hafter by done.
        destruct (in_bounds cfg x0 y0) eqn:Hb0; [|done].
        destruct (IH _ _ _ _ (store_well_formed cfg cells x0 y0 _ Hwf) Hafter) as [Hwf' Hfr].
        split; [done|]. intros x y Hb Hnot.
        apply not_elem_of_cons in Hnot as [Hne Hnot].
        rewrite (Hfr x y Hb Hnot), (load_store cfg) by done.
        case_decide as Heq; [|done]. destruct Heq as [-> ->]. done.
      * destruct (Ascii.eqb_spec b "255"%char) as [->|Hff].
        -- rewrite read_loop_byte_ff in Hafter. cbn in Hafter. by simplify_eq.
        -- rewrite read_loop_unknown in Hafter; [cbn in Hafter; by simplify_eq| |done].
           unfold is_format_char. rewrite Hcell. cbn. by apply Ascii.eqb_neq.
Qed.

(** A call returns when it addresses cells of the array only and the rows
    cannot run out of the range of [int]. *)
Lemma read_loop_returns (input : list ascii) :
  forall (x0 y0 : Z) (cells : Grid),
  (forall p, p ∈ addressed input x0 y0 -> in_bounds cfg (fst p) (snd p) = true) ->
  y0 + Z.of_nat (length input) <= INT_MAX ->
  is_Some (cells_after (read_loop cfg input x0 y0 cells)).
Proof.
  induction input as [|b rest IH]; intros x0 y0 cells Hin Hy; [by eexists|].
  cbn [addressed length] in *. destruct (Ascii.eqb_spec b newline) as [->|Hnl].
  - rewrite read_loop_newline. destruct (Z.leb_spec (y0 + 1) INT_MAX); [|lia].
    apply IH; [done | lia].
  - destruct (is_cell_char b) eqn:Hcell.
    + rewrite read_loop_cell by done.
      assert (Hb0 : in_bounds cfg x0 y0 = true) by (apply (Hin (x0, y0)); by left).
      rewrite Hb0. apply IH; [|lia]. intros p Hp. apply Hin. by right.
    + destruct (Ascii.eqb_spec b "255"%char) as [->|Hff]; [by eexists|].
      rewrite read_loop_unknown; [by eexists| |done].
      unfold is_format_char. rewrite Hcell. cbn. by apply Ascii.eqb_neq.
Qed.

(** A character of no meaning after a prefix of the format: the call fails
    with the array the prefix has produced. *)
Lemma read_loop_prefix_unknown (pre : list ascii) (b : ascii) (rest : list ascii) :
  forall (x0 y0 : Z) (cells cells' : Grid),
  Forall (fun a => is_format_char a = true) pre ->
  is_format_char b = false -> b <> "255"%char ->
  read_loop cfg pre x0 y0 cells = ReadSuccess cells' ->
  read_loop cfg (pre ++ b :: rest) x0 y0 cells = ReadFailure (UnknownCharacter b) cells'.
Proof.
  intros x0 y0 cells cells' Hpre Hb Hff. revert x0 y0 cells.
  induction Hpre as [|a pre Ha Hpre IH]; intros x0 y0 cells Hread.
  - cbn in Hread. simplify_eq. by apply read_loop_unknown.
  - rewrite <- app_comm_cons. unfold is_format_char in Ha.
    apply orb_true_iff in Ha as [Ha | ->%Ascii.eqb_eq].
    + rewrite read_loop_cell in * by done.
      destruct (in_bounds cfg x0 y0); [|done]. by apply IH.
    + rewrite read_loop_newline in *.
      destruct (y0 + 1 <=? INT_MAX); [|done]. by apply IH.
Qed.

(** Reading the characters of one line. *)
Lemma read_row (line rest : list ascii) (y : Z) :
  forall (x0 : Z) (cells : Grid),
  well_formed cfg cells ->
  0 <= x0 -> x0 + Z.of_nat (length line) <= N_CELLS_ROW cfg ->
  0 <= y < N_CELLS_COL cfg ->
  Forall (fun b => is_cell_char b = true) line ->
  exists cells',
    read_loop cfg (line ++ rest) x0 y cells
    = read_loop cfg rest (x0 + Z.of_nat (length line)) y cells' /\
    well_formed cfg cells' /\
    (forall (i : nat) (b : ascii), line !! i = Some b ->
       load cells' (x0 + Z.of_nat i) y = Ascii.eqb b "#"%char) /\
    (forall x' y', in_bounds cfg x' y' = true -> y' <> y \/ x' < x0 ->
       load cells' x' y' = load cells x' y').
Proof.
  induction line as [|b line IH]; intros x0 cells Hwf Hx0 Hlen Hy Hchars.
  - exists cells. cbn. rewrite Z.add_0_r. done.
  - apply Forall_cons in Hchars as [Hb Hchars]. cbn [length] in Hlen.
    assert (Hb0 : in_bounds cfg x0 y = true) by (apply in_bounds_spec; lia).
    destruct (IH (x0 + 1) (store cells x0 y (Ascii.eqb b "#"%char)))
      as (cells' & Hread & Hwf' & Hval & Hfr); [by apply store_well_formed|lia..|done|].
    exists cells'. split; [|split; [done|split]].
    + rewrite <- app_comm_cons, read_loop_cell, Hb0, Hread by done.
      f_equal. cbn [length]. lia.
    + intros [|i] b' Hi.
      * cbn in Hi. simplify_eq. rewrite Z.add_0_r.
        rewrite Hfr by (done || lia). rewrite (load_store cfg) by done.
        case_decide as Hne; [done|]. exfalso. apply Hne. done.
      * cbn in Hi. rewrite <- (Hval i b' Hi). f_equal. lia.
    + intros x' y' Hb' Hout. rewrite Hfr by (done || lia).
      rewrite (load_store cfg) by done. case_decide as Heq; [|done]. lia.
Qed.

(** Reading a text block from the start of row [y]. *)
Lemma read_text (trailing : bool) (lines : list (list ascii)) :
  forall (y : Z) (cells : Grid),
  lines <> [] ->
  well_formed cfg cells ->
  N_CELLS_COL cfg <= INT_MAX ->
  0 <= y -> y + Z.of_nat (length lines) <= N_CELLS_COL cfg ->
  Forall (fun line => Z.of_nat (length line) = N_CELLS_ROW cfg /\
                      Forall (fun b => is_cell_char b = true) line) lines ->
  exists cells',
    read_loop cfg (text_block lines trailing) 0 y cells = ReadSuccess cells' /\
    well_formed cfg cells' /\
    (forall (j i : nat) (line : list ascii) (b : ascii),
       lines !! j = Some line -> line !! i = Some b ->
       load cells' (Z.of_nat i) (y + Z.of_nat j) = Ascii.eqb b "#"%char) /\
    (forall x' y', in_bounds cfg x' y' = true -> y' < y ->
       load cells' x' y' = load cells x' y').
Proof.
  induction lines as [|line lines IH]; intros y cells Hne Hwf Hmax Hy Hlen Hlines; [done|].
  apply Forall_cons in Hlines as [[Hline Hchars] Hlines]. cbn [length] in Hlen.
  destruct (read_row line
              (match lines with
               | [] => if trailing then [newline] else []
               | _ :: _ => newline :: text_block lines trailing
               end) y 0 cells)
    as (cells1 & Hread1 & Hwf1 & Hval1 & Hfr1); [done|lia..|done|].
  assert (Hstep : (y + 1 <=? INT_MAX) = true) by (apply Z.leb_le; lia).
  destruct lines as [|line2 lines].
  - exists cells1. split; [|split; [done|split]].
    + cbn [text_block]. rewrite Hread1.
      destruct trailing; [|done]. by rewrite read_loop_newline, Hstep.
    + intros [|j] i l b Hj Hi; [|done]. cbn in Hj. simplify_eq.
      rewrite Z.add_0_r. by rewrite <- (Hval1 i b Hi).
    + intros x' y' Hb' Hlt. apply Hfr1; [done|lia].
  - destruct (IH (y + 1) cells1) as (cells' & Hread & Hwf' & Hval & Hfr);
      [done|done|done|lia|cbn [length] in *; lia|done|].
    exists cells'. split; [|split; [done|split]].
    + change (text_block (line :: line2 :: lines) trailing)
        with (line ++ newline :: text_block (line2 :: lines) trailing).
      by rewrite Hread1, read_loop_newline, Hstep.
    + intros [|j] i l b Hj Hi.
      * cbn in Hj. simplify_eq. rewrite Z.add_0_r.
        assert (Hi' := lookup_lt_Some _ _ _ Hi).
        rewrite Hfr by (rewrite ?in_bounds_spec; lia).
        by rewrite <- (Hval1 i b Hi).
      * cbn in Hj. rewrite <- (Hval j i l b Hj Hi). f_equal. lia.
    + intros x' y' Hb' Hlt. rewrite Hfr by (done || lia). apply Hfr1; [done|lia].
Qed.

Lemma matches_gridb_spec (lines : list (list ascii)) :
  matches_gridb cfg lines = true -> matches_grid cfg lines.
Proof.
  unfold matches_gridb, matches_grid. rewrite andb_true_iff, forallb_forall, Z.eqb_eq.
  intros [Hlen Hlines]. split; [done|].
  apply Forall_forall. intros line Hin%list_elem_of_In.
  apply Hlines in Hin. apply andb_true_iff in Hin as [Hw Hchars].
  split; [by apply Z.eqb_eq|].
  apply Forall_forall. intros b Hb%list_elem_of_In.
  rewrite forallb_forall in Hchars. by apply Hchars.
Qed.

Lemma grid_dimensions_valid :
  valid_config cfg ->
  0 < N_CELLS_ROW cfg <= INT_MAX /\ 0 < N_CELLS_COL cfg <= INT_MAX.
Proof.
  intros (Hc & Hw & Hh & _ & _ & Hrw & Hrh & _). unfold N_CELLS_ROW, N_CELLS_COL.
  pose proof (Z.quot_rem' (SCR_WIDTH cfg) (CELL_SIZE cfg)) as Ew.
  pose proof (Z.quot_rem' (SCR_HEIGHT cfg) (CELL_SIZE cfg)) as Eh.
  rewrite Hrw in Ew. rewrite Hrh in Eh. nia.
Qed.

(** [main] when [readInput] fails: the message, then [return EXIT_FAILURE]
    before the loop. *)
Lemma main_read_failure (fs : string -> option (list ascii)) (name : string)
    (rand : nat -> Z) (stack : Grid) (inputs : list FrameInput)
    (d : Diagnostic) (cells' : Grid) :
  valid_config cfg ->
  readInput cfg fs stack name = ReadFailure d cells' ->
  main cfg 2 name fs rand stack inputs
  = mkRun [ACreateWindow (SCR_WIDTH cfg) (SCR_HEIGHT cfg); AStderr d] []
          (Exited EXIT_FAILURE).
Proof.
  intros (_ & _ & _ & _ & _ & Hrw & Hrh & Hn) Hread. unfold main.
  change (2 >? 2) with false. change (2 =? 1) with false. change (2 =? 2) with true.
  rewrite Hrw, Hrh. cbn [Z.eqb negb orb].
  destruct (Z.eqb_spec (FRAMES_PER_ITERATION cfg) 0) as [|_]; [done|].
  cbv iota. rewrite Hread. reflexivity.
Qed.

End ReadInput.

(** C6, at the input on which the program departs from it: a file that
    consists of the byte 0xFF, which is none of '#', '.' and newline, is
    read with success, because the byte stored in the [char] variable
    compares equal to [EOF]; [main] then enters the loop, draws, and ends
    with EXIT_SUCCESS when the user quits. *)
Theorem byte_ff_is_taken_for_end_of_file (cells : Grid) (rand : nat -> Z) :
  is_format_char "255"%char = false /\
  readInput source_config (only_file byte_ff_file) cells example_name
  = ReadSuccess cells /\
  main source_config 2 example_name (only_file byte_ff_file) rand cells [escape_frame]
  = mkRun [ACreateWindow 640 480]
          [[ADraw (drawScreen source_config cells); AUpdate; ADelay 0]]
          (Exited EXIT_SUCCESS).
Proof. split; [reflexivity|]. split; reflexivity. Qed.

(** C7, as stated, fails: on a file with '#' followed by 'x' the call
    fails, and the array it was given, with (0,0) dead, is left with (0,0)
    alive. *)
Lemma failed_read_is_not_atomic :
  readInput source_config (only_file alive_then_x_file) (blank source_config) example_name
  = ReadFailure (UnknownCharacter "x"%char) (store (blank source_config) 0 0 true) /\
  load (blank source_config) 0 0 = false /\
  load (store (blank source_config) 0 0 true) 0 0 = true /\
  cells_after (readInput source_config (only_file alive_then_x_file)
                 (blank source_config) example_name)
  <> Some (blank source_config).
Proof.
  split; [reflexivity|]. split; [reflexivity|]. split; [vm_compute; reflexivity|].
  intros H. apply (f_equal (fun o => match o with Some g => load g 0 0 | None => false end)) in H.
  vm_compute in H. discriminate.
Qed.

(** C7, amended: when a character of no meaning follows a prefix of '#',
    '.' and newlines, [readInput] fails with that character in the message
    and leaves the array as reading the prefix alone leaves it; [main] then
    returns EXIT_FAILURE without entering the loop, so that this array is
    never drawn. *)
Theorem failed_read_keeps_prefix (cfg : Config) (fs : string -> option (list ascii))
    (pre : list ascii) (b : ascii) (rest : list ascii) (name : string)
    (cells cells' : Grid) (rand : nat -> Z) (inputs : list FrameInput) :
  valid_config cfg ->
  fs name = Some (pre ++ b :: rest) ->
  Forall (fun a => is_format_char a = true) pre ->
  is_format_char b = false -> b <> "255"%char ->
  readInput cfg (only_file pre) cells name = ReadSuccess cells' ->
  readInput cfg fs cells name = ReadFailure (UnknownCharacter b) cells' /\
  main cfg 2 name fs rand cells inputs
  = mkRun [ACreateWindow (SCR_WIDTH cfg) (SCR_HEIGHT cfg); AStderr (UnknownCharacter b)]
          [] (Exited EXIT_FAILURE).
Proof.
  intros Hvalid Hfs Hpre Hb Hff Hread.
  assert (Hfail : readInput cfg fs cells name = ReadFailure (UnknownCharacter b) cells').
  { unfold readInput, only_file in *. rewrite Hfs. by apply read_loop_prefix_unknown. }
  split; [done|]. by apply (main_read_failure cfg) with (cells' := cells').
Qed.

Lemma failed_read_keeps_prefix_witness :
  valid_config source_config /\
  only_file alive_then_x_file example_name = Some (["#"%char] ++ "x"%char :: []) /\
  Forall (fun a => is_format_char a = true) ["#"%char] /\
  is_format_char "x"%char = false /\
  "x"%char <> "255"%char /\
  readInput source_config (only_file ["#"%char]) (blank source_config) example_name
  = ReadSuccess (store (blank source_config) 0 0 true) /\
  readInput source_config (only_file alive_then_x_file) (blank source_config) example_name
  = ReadFailure (UnknownCharacter "x"%char) (store (blank source_config) 0 0 true).
Proof.
  assert (Hvalid : valid_config source_config) by valid_config_by_evaluation.
  assert (Hfs : only_file alive_then_x_file example_name
                = Some (["#"%char] ++ "x"%char :: [])) by reflexivity.
  assert (Hpre : Forall (fun a => is_format_char a = true) ["#"%char])
    by (repeat constructor).
  assert (Hb : is_format_char "x"%char = false) by reflexivity.
  assert (Hff : "x"%char <> "255"%char) by discriminate.
  assert (Hread : readInput source_config (only_file ["#"%char]) (blank source_config)
                    example_name
                  = ReadSuccess (store (blank source_config) 0 0 true)) by reflexivity.
  exact (conj Hvalid (conj Hfs (conj Hpre (conj Hb (conj Hff (conj Hread
    (proj1 (failed_read_keeps_prefix source_config (only_file alive_then_x_file)
              ["#"%char] "x"%char [] example_name
              (blank source_config) (store (blank source_config) 0 0 true)
              (fun _ => 0) [] Hvalid Hfs Hpre Hb Hff Hread)))))))).
Defined.

(** C8: a text block of '#' and '.' with as many lines as the grid is high
    and as many characters in each line as the grid is wide, with or
    without a newline after the last line, is read with success, and
    afterwards the cell (x, y) is alive exactly when character x of line y
    is '#'. *)
Theorem read_text_block_round_trip (cfg : Config) (fs : string -> option (list ascii))
    (lines : list (list ascii)) (trailing : bool) (name : string) (cells : Grid) :
  valid_config cfg -> well_formed cfg cells -> matches_grid cfg lines ->
  fs name = Some (text_block lines trailing) ->
  exists cells',
    readInput cfg fs cells name = ReadSuccess cells' /\
    well_formed cfg cells' /\
    forall (x y : nat) (line : list ascii) (b : ascii),
      lines !! y = Some line -> line !! x = Some b ->
      (load cells' (Z.of_nat x) (Z.of_nat y) = true <-> b = "#"%char).
Proof.
  intros Hvalid Hwf [Hlen Hlines] Hfs.
  destruct (grid_dimensions_valid cfg Hvalid) as [HW HH].
  destruct (read_text cfg trailing lines 0 cells) as (cells' & Hread & Hwf' & Hval & _);
    [|done|lia|lia|lia|done|].
  { intros ->. cbn in Hlen. lia. }
  exists cells'. unfold readInput. rewrite Hfs. split; [exact Hread|]. split; [done|].
  intros x y line b Hy Hx. rewrite <- (Ascii.eqb_eq b "#"%char).
  by rewrite <- (Hval y x line b Hy Hx).
Qed.

Lemma read_text_block_round_trip_witness :
  valid_config source_config /\
  well_formed source_config (blank source_config) /\
  matches_grid source_config chequer_lines /\
  only_file (text_block chequer_lines true) example_name
  = Some (text_block chequer_lines true) /\
  exists cells',
    readInput source_config (only_file (text_block chequer_lines true))
      (blank source_config) example_name = ReadSuccess cells' /\
    well_formed source_config cells' /\
    forall (x y : nat) (line : list ascii) (b : ascii),
      chequer_lines !! y = Some line -> line !! x = Some b ->
      (load cells' (Z.of_nat x) (Z.of_nat y) = true <-> b = "#"%char).
Proof.
  assert (Hvalid : valid_config source_config) by valid_config_by_evaluation.
  assert (Hwf : well_formed source_config (blank source_config))
    by well_formed_by_evaluation.
  assert (Hm : matches_grid source_config chequer_lines)
    by (apply matches_gridb_spec; vm_compute; reflexivity).
  assert (Hfs : only_file (text_block chequer_lines true) example_name
                = Some (text_block chequer_lines true)) by reflexivity.
  exact (conj Hvalid (conj Hwf (conj Hm (conj Hfs
    (read_text_block_round_trip source_config (only_file (text_block chequer_lines true))
       chequer_lines true example_name (blank source_config) Hvalid Hwf Hm Hfs))))).
Defined.

(** C10: a call of [readInput] that returns, with success or with failure,
    leaves every cell that is not addressed by a '#' or '.' it has consumed
    as it was; nothing is addressed when the file cannot be opened; and the
    call does return when the addressed cells lie in the array. *)
Theorem read_changes_addressed_cells_only (cfg : Config)
    (fs : string -> option (list ascii)) (name : string) (cells : Grid) :
  well_formed cfg cells ->
  let touched := match fs name with
                 | Some content => addressed content 0 0
                 | None => []
                 end in
  (forall cells', cells_after (readInput cfg fs cells name) = Some cells' ->
     well_formed cfg cells' /\
     forall x y, in_bounds cfg x y = true -> (x, y) ∉ touched ->
       load cells' x y = load cells x y) /\
  ((forall p, p ∈ touched -> in_bounds cfg (fst p) (snd p) = true) ->
   (forall content, fs name = Some content -> Z.of_nat (length content) <= INT_MAX) ->
   is_Some (cells_after (readInput cfg fs cells name))).
Proof.
  intros Hwf touched. unfold readInput. subst touched.
  destruct (fs name) as [content|]; split.
  - intros cells' Hafter. by apply (read_loop_frame cfg content 0 0 cells).
  - intros Hin Hlen. apply read_loop_returns; [done|]. specialize (Hlen content eq_refl). lia.
  - intros cells' Hafter. cbn in Hafter. by simplify_eq.
  - intros _ _. by eexists.
Qed.

Lemma read_changes_addressed_cells_only_witness :
  well_formed source_config (blank source_config) /\
  forall cells',
    cells_after (readInput source_config (only_file alive_then_x_file)
                   (blank source_config) example_name) = Some cells' ->
    well_formed source_config cells' /\
    forall x y, in_bounds source_config x y = true ->
      (x, y) ∉ addressed alive_then_x_file 0 0 ->
      load cells' x y = load (blank source_config) x y.
Proof.
  assert (Hwf : well_formed source_config (blank source_config))
    by well_formed_by_evaluation.
  exact (conj Hwf
    (proj1 (read_changes_addressed_cells_only source_config (only_file alive_then_x_file)
              example_name (blank source_config) Hwf))).
Defined.

(** * Further properties of the program *)

(** ** updateCells *)

Section TransitionFurther.
Variable cfg : Config.

Lemma all_dead_load (cells : Grid) (x y : Z) :
  all_dead cells = true -> load cells x y = false.
Proof.
  unfold all_dead, load. rewrite forallb_forall. intros Hall.
  destruct (cells !! Z.to_nat x) as [col|] eqn:Hcol; [|done].
  destruct (col !! Z.to_nat y) as [b|] eqn:Hb; [|done]. cbn.
  assert (Hc : forallb negb col = true).
  { apply Hall, list_elem_of_In, list_elem_of_lookup. eauto. }
  rewrite forallb_forall in Hc.
  apply negb_true_iff, Hc, list_elem_of_In, list_elem_of_lookup. eauto.
Qed.

(** The count depends on the cells of the block around (x, y) only. *)
Lemma count_neighbors_local (g1 g2 : Grid) (x y : Z) :
  (forall i j, in_bounds cfg i j = true ->
     -1 <= i - x <= 1 -> -1 <= j - y <= 1 -> load g1 i j = load g2 i j) ->
  count_neighbors cfg g1 x y = count_neighbors cfg g2 x y.
Proof.
  intros Hagree.
  refine (scan_block_rel cfg (fun n m : Z => n = m)
            (fun i j n => n + Z.b2z (load g1 i j))
            (fun i j n => n + Z.b2z (load g2 i j)) x y _ 0 0 eq_refl).
  intros dx dy a b Hdx%in_deltas Hdy%in_deltas Hb ->.
  rewrite (Hagree _ _ Hb) by lia. done.
Qed.

End TransitionFurther.

(** X1: [updateCells] never uses what its local array [newCells] holds on
    entry: whatever that is, the resulting array is the same, and it has
    the dimensions of the grid. *)
Theorem updateCells_ignores_local_array (cfg : Config) (new1 new2 cells : Grid) :
  well_formed cfg new1 -> well_formed cfg new2 -> well_formed cfg cells ->
  updateCells_from cfg new1 cells = updateCells_from cfg new2 cells /\
  well_formed cfg (updateCells_from cfg new1 cells).
Proof.
  intros H1 H2 Hwf. split; [by apply updateCells_from_any|].
  by apply updateCells_from_spec.
Qed.

Lemma updateCells_ignores_local_array_witness :
  well_formed source_config plus_shape /\
  well_formed source_config (blank source_config) /\
  well_formed source_config corner_trio /\
  updateCells_from source_config plus_shape corner_trio
  = updateCells_from source_config (blank source_config) corner_trio.
Proof.
  assert (H1 : well_formed source_config plus_shape) by well_formed_by_evaluation.
  assert (H2 : well_formed source_config (blank source_config))
    by well_formed_by_evaluation.
  assert (H3 : well_formed source_config corner_trio) by well_formed_by_evaluation.
  exact (conj H1 (conj H2 (conj H3
    (proj1 (updateCells_ignores_local_array source_config plus_shape
              (blank source_config) corner_trio H1 H2 H3))))).
Defined.

(** X2: a grid without alive cells is its own next generation. *)
Theorem dead_grid_stays_dead (cfg : Config) (cells : Grid) :
  well_formed cfg cells -> all_dead cells = true ->
  updateCells cfg cells = cells.
Proof.
  intros Hwf Hdead. apply (grid_ext cfg); [by apply updateCells_well_formed|done|].
  intros x y Hb. rewrite updateCells_load by done.
  rewrite (all_dead_load cells x y Hdead).
  assert (Hc : count_neighbors cfg cells x y = 0).
  { refine (scan_block_rel cfg (fun (n : Z) (_ : unit) => n = 0)
              (fun i j n => n + Z.b2z (load cells i j)) (fun _ _ u => u) x y _ 0 tt eq_refl).
    intros dx dy a b _ _ _ ->. by rewrite (all_dead_load cells _ _ Hdead). }
  rewrite Hc. reflexivity.
Qed.

Lemma dead_grid_stays_dead_witness :
  well_formed source_config (blank source_config) /\
  all_dead (blank source_config) = true /\
  updateCells source_config (blank source_config) = blank source_config.
Proof.
  assert (Hwf : well_formed source_config (blank source_config))
    by well_formed_by_evaluation.
  assert (Hd : all_dead (blank source_config) = true) by (vm_compute; reflexivity).
  exact (conj Hwf (conj Hd (dead_grid_stays_dead source_config _ Hwf Hd))).
Defined.

(** X3: the next state of a cell depends on the cells of the grid at
    distance at most 1 only: two grids that agree there give the cell the
    same next state. *)
Theorem next_state_is_local (cfg : Config) (g1 g2 : Grid) (x y : Z) :
  well_formed cfg g1 -> well_formed cfg g2 -> in_bounds cfg x y = true ->
  (forall i j, in_bounds cfg i j = true ->
     -1 <= i - x <= 1 -> -1 <= j - y <= 1 -> load g1 i j = load g2 i j) ->
  load (updateCells cfg g1) x y = load (updateCells cfg g2) x y.
Proof.
  intros H1 H2 Hb Hagree. rewrite !updateCells_load by done.
  rewrite (count_neighbors_local cfg g1 g2 x y Hagree).
  rewrite (Hagree x y Hb) by lia. done.
Qed.

Lemma next_state_is_local_witness :
  well_formed source_config corner_trio /\
  well_formed source_config corner_trio_and_far /\
  in_bounds source_config 0 0 = true /\
  (forall i j, in_bounds source_config i j = true ->
     -1 <= i - 0 <= 1 -> -1 <= j - 0 <= 1 ->
     load corner_trio i j = load corner_trio_and_far i j) /\
  load (updateCells source_config corner_trio) 0 0
  = load (updateCells source_config corner_trio_and_far) 0 0.
Proof.
  assert (H1 : well_formed source_config corner_trio) by well_formed_by_evaluation.
  assert (H2 : well_formed source_config corner_trio_and_far) by well_formed_by_evaluation.
  assert (Hb : in_bounds source_config 0 0 = true) by (vm_compute; reflexivity).
  assert (Hag : forall i j, in_bounds source_config i j = true ->
            -1 <= i - 0 <= 1 -> -1 <= j - 0 <= 1 ->
            load corner_trio i j = load corner_trio_and_far i j).
  { intros i j Hij Hi Hj. apply in_bounds_spec in Hij as [Hi' Hj'].
    assert (Ei : i = 0 \/ i = 1) by lia. assert (Ej : j = 0 \/ j = 1) by lia.
    destruct Ei as [-> | ->], Ej as [-> | ->]; vm_compute; reflexivity. }
  exact (conj H1 (conj H2 (conj Hb (conj Hag
    (next_state_is_local source_config corner_trio corner_trio_and_far 0 0 H1 H2 Hb Hag))))).
Defined.

(** X4: the variable [neighbors] lies between 0 and the number of positions
    the loops read, and these are at most 9. *)
Theorem neighbor_count_range (cfg : Config) (cells : Grid) (x y : Z) :
  0 <= count_neighbors cfg cells x y <= Z.of_nat (length (visited cfg x y)) /\
  Z.of_nat (length (visited cfg x y)) <= 9.
Proof.
  split.
  - refine (scan_block_rel cfg
              (fun (n : Z) (acc : list (Z * Z)) => 0 <= n <= Z.of_nat (length acc))
              (fun i j n => n + Z.b2z (load cells i j)) (fun i j acc => acc ++ [(i, j)]) x y
              _ 0 [] _); [|cbn; lia].
    intros dx dy n acc _ _ _ Hn. rewrite length_app. cbn [length].
    destruct (load cells (x + dx) (y + dy)); cbn [Z.b2z]; lia.
  - unfold visited, scan_block, deltas. cbn [fold_left].
    destruct ((x + -1 <? 0) || (x + -1 >=? N_CELLS_ROW cfg)),
             ((x + 0 <? 0) || (x + 0 >=? N_CELLS_ROW cfg)),
             ((x + 1 <? 0) || (x + 1 >=? N_CELLS_ROW cfg)),
             ((y + -1 <? 0) || (y + -1 >=? N_CELLS_COL cfg)),
             ((y + 0 <? 0) || (y + 0 >=? N_CELLS_COL cfg)),
             ((y + 1 <? 0) || (y + 1 >=? N_CELLS_COL cfg));
      cbn [app length]; lia.
Qed.

(** ** drawScreen *)

Section Drawing.
Variable cfg : Config.

Lemma draw_fold (cells : Grid) (l : list (Z * Z)) (acc : list SurfaceOp) :
  fold_left
    (fun ops p => if load cells (fst p) (snd p) then ops ++ [cell_rect cfg p] else ops)
    l acc
  = acc ++ map (cell_rect cfg) (List.filter (fun p => load cells (fst p) (snd p)) l).
Proof.
  revert acc. induction l as [|p l IH]; intros acc; cbn [fold_left List.filter].
  - by rewrite app_nil_r.
  - rewrite IH. destruct (load cells (fst p) (snd p)); [|done].
    cbn [map]. by rewrite <- app_assoc.
Qed.

Lemma drawScreen_closed (cells : Grid) :
  drawScreen cfg cells
  = [ClearSurface]
    ++ map (cell_rect cfg)
         (List.filter (fun p => load cells (fst p) (snd p)) (positions cfg))
    ++ [UpdateWindowSurface].
Proof.
  unfold drawScreen. do 2 f_equal. rewrite for_each_cell_positions.
  exact (draw_fold cells (positions cfg) []).
Qed.

Lemma drawScreen_rect (cells : Grid) (op : SurfaceOp) :
  op ∈ drawScreen cfg cells ->
  op = ClearSurface \/ op = UpdateWindowSurface \/
  exists x y, in_bounds cfg x y = true /\ load cells x y = true /\ op = cell_rect cfg (x, y).
Proof.
  rewrite drawScreen_closed. intros Hin.
  apply elem_of_app in Hin as [Hin|Hin].
  { apply list_elem_of_singleton in Hin. by left. }
  apply elem_of_app in Hin as [Hin|Hin].
  2:{ apply list_elem_of_singleton in Hin. right. by left. }
  right. right. apply list_elem_of_In, in_map_iff in Hin as ([x y] & <- & Hp).
  apply filter_In in Hp as [Hpos Halive]. exists x, y.
  split; [by apply in_positions, list_elem_of_In|]. done.
Qed.

Lemma cells_tile_screen :
  valid_config cfg ->
  N_CELLS_ROW cfg * CELL_SIZE cfg = SCR_WIDTH cfg /\
  N_CELLS_COL cfg * CELL_SIZE cfg = SCR_HEIGHT cfg.
Proof.
  intros (Hc & Hw & Hh & _ & _ & Hrw & Hrh & _). unfold N_CELLS_ROW, N_CELLS_COL.
  pose proof (Z.quot_rem' (SCR_WIDTH cfg) (CELL_SIZE cfg)) as Ew.
  pose proof (Z.quot_rem' (SCR_HEIGHT cfg) (CELL_SIZE cfg)) as Eh.
  rewrite Hrw in Ew. rewrite Hrh in Eh. lia.
Qed.

End Drawing.

(** X5: [drawScreen] clears the surface first and updates the window last,
    and in between it fills one square for each alive cell of the grid and
    nothing else: a rectangle is filled exactly when it is the square of
    side CELL_SIZE at (x * CELL_SIZE, y * CELL_SIZE), in the colour COLOR,
    of an alive cell (x, y) of the grid. *)
Theorem drawScreen_draws_alive_cells (cfg : Config) (cells : Grid) :
  head (drawScreen cfg cells) = Some ClearSurface /\
  last (drawScreen cfg cells) = Some UpdateWindowSurface /\
  Z.of_nat (length (drawScreen cfg cells))
  = 2 + Z.of_nat (length (List.filter (fun p => load cells (fst p) (snd p)) (positions cfg))) /\
  forall px py w h c,
    FillRect px py w h c ∈ drawScreen cfg cells <->
    exists x y, in_bounds cfg x y = true /\ load cells x y = true /\
      px = x * CELL_SIZE cfg /\ py = y * CELL_SIZE cfg /\
      w = CELL_SIZE cfg /\ h = CELL_SIZE cfg /\ c = COLOR.
Proof.
  split; [by rewrite drawScreen_closed|].
  split; [by rewrite drawScreen_closed, app_assoc, last_snoc|].
  split.
  { rewrite drawScreen_closed, !length_app, length_map. cbn [length]. lia. }
  intros px py w h c. split.
  - intros Hin. apply drawScreen_rect in Hin as [?|[?|(x & y & Hb & Ha & Heq)]]; [done..|].
    exists x, y. unfold cell_rect in Heq. cbn [fst snd] in Heq. by simplify_eq.
  - intros (x & y & Hb & Ha & -> & -> & -> & -> & ->).
    rewrite drawScreen_closed. apply elem_of_app. right. apply elem_of_app. left.
    apply list_elem_of_In, in_map_iff. exists (x, y). split; [reflexivity|].
    apply filter_In. split; [by apply list_elem_of_In, in_positions|done].
Qed.

(** X6: with a valid configuration every rectangle [drawScreen] fills lies
    inside the window of SCR_WIDTH x SCR_HEIGHT pixels, and the squares of
    two different cells do not overlap. *)
Theorem drawScreen_stays_in_window (cfg : Config) (cells : Grid) :
  valid_config cfg ->
  (forall px py w h c, FillRect px py w h c ∈ drawScreen cfg cells ->
     0 <= px /\ px + w <= SCR_WIDTH cfg /\ 0 <= py /\ py + h <= SCR_HEIGHT cfg) /\
  (forall x1 y1 x2 y2, (x1, y1) <> (x2, y2) ->
     x1 * CELL_SIZE cfg + CELL_SIZE cfg <= x2 * CELL_SIZE cfg \/
     x2 * CELL_SIZE cfg + CELL_SIZE cfg <= x1 * CELL_SIZE cfg \/
     y1 * CELL_SIZE cfg + CELL_SIZE cfg <= y2 * CELL_SIZE cfg \/
     y2 * CELL_SIZE cfg + CELL_SIZE cfg <= y1 * CELL_SIZE cfg).
Proof.
  intros Hvalid. destruct (cells_tile_screen cfg Hvalid) as [HW HH].
  destruct Hvalid as (Hc & _). split.
  - intros px py w h c Hin.
    apply drawScreen_rect in Hin as [?|[?|(x & y & Hb & _ & Heq)]]; [done..|].
    unfold cell_rect in Heq. cbn [fst snd] in Heq. simplify_eq.
    apply in_bounds_spec in Hb as [Hx Hy]. nia.
  - intros x1 y1 x2 y2 Hne.
    assert (x1 <> x2 \/ y1 <> y2) as [Hx|Hy].
    { destruct (decide (x1 = x2)) as [->|]; [|by left].
      right. intros ->. done. }
    + assert (x1 < x2 \/ x2 < x1) as [?|?] by lia; [left | right; left]; nia.
    + assert (y1 < y2 \/ y2 < y1) as [?|?] by lia; [right; right; left | right; right; right]; nia.
Qed.

Lemma drawScreen_stays_in_window_witness :
  valid_config source_config /\
  forall px py w h c, FillRect px py w h c ∈ drawScreen source_config plus_shape ->
    0 <= px /\ px + w <= SCR_WIDTH source_config /\
    0 <= py /\ py + h <= SCR_HEIGHT source_config.
Proof.
  assert (Hvalid : valid_config source_config) by valid_config_by_evaluation.
  exact (conj Hvalid (proj1 (drawScreen_stays_in_window source_config plus_shape Hvalid))).
Defined.

(** ** populateRandomCells *)

Section RandomCells.
Variable cfg : Config.
Variable f : nat -> bool.

(** The inner loop: the column [x] from row [y0] on, [n] rows. *)
Lemma populate_column (x : Z) (n : nat) :
  0 <= x < N_CELLS_ROW cfg ->
  forall (y0 : Z) (g : Grid) (k : nat),
  well_formed cfg g -> 0 <= y0 -> Z.of_nat n <= Z.max 0 (N_CELLS_COL cfg - y0) ->
  let r := fold_left (fun st y => (store (fst st) x y (f (snd st)), S (snd st)))
             (seqZ y0 (Z.of_nat n)) (g, k) in
  snd r = (k + n)%nat /\ well_formed cfg (fst r) /\
  forall x' y', in_bounds cfg x' y' = true ->
    load (fst r) x' y'
    = if decide (x' = x /\ y0 <= y' < y0 + Z.of_nat n)
      then f (k + Z.to_nat (y' - y0))%nat else load g x' y'.
Proof.
  intros Hx. induction n as [|n IH]; intros y0 g k Hwf Hy0 Hlen.
  - change (Z.of_nat 0) with 0. rewrite seqZ_nil by lia. cbn [fold_left fst snd].
    split; [lia|]. split; [done|]. intros x' y' _. case_decide; [lia|done].
  - rewrite seqZ_cons by lia. cbn [fold_left fst snd].
    replace (Z.pred (Z.of_nat (S n))) with (Z.of_nat n) by lia.
    destruct (IH (Z.succ y0) (store g x y0 (f k)) (S k))
      as (Hk & Hwf' & Hload); [by apply store_well_formed|lia..|].
    split; [rewrite Hk; lia|]. split; [done|]. intros x' y' Hb. rewrite (Hload x' y' Hb).
    assert (Hb0 : in_bounds cfg x y0 = true) by (apply in_bounds_spec; lia).
    rewrite (load_store cfg) by done.
    repeat case_decide; try lia; try done.
    + f_equal. lia.
    + destruct_and!. subst. f_equal. replace (y0 - y0) with 0 by lia. cbn. lia.
Qed.

(** Both loops: the columns from [x0] on, [n] columns. *)
Lemma populate_columns (n : nat) :
  forall (x0 : Z) (g : Grid) (k : nat),
  well_formed cfg g -> 0 <= x0 -> x0 + Z.of_nat n <= N_CELLS_ROW cfg ->
  let r := fold_left
             (fun st x =>
                fold_left (fun st y => (store (fst st) x y (f (snd st)), S (snd st)))
                  (upto (N_CELLS_COL cfg)) st)
             (seqZ x0 (Z.of_nat n)) (g, k) in
  snd r = (k + n * Z.to_nat (N_CELLS_COL cfg))%nat /\ well_formed cfg (fst r) /\
  forall x' y', in_bounds cfg x' y' = true ->
    load (fst r) x' y'
    = if decide (x0 <= x' < x0 + Z.of_nat n)
      then f (k + Z.to_nat (x' - x0) * Z.to_nat (N_CELLS_COL cfg) + Z.to_nat y')%nat
      else load g x' y'.
Proof.
  assert (Hup : upto (N_CELLS_COL cfg) = seqZ 0 (Z.of_nat (Z.to_nat (N_CELLS_COL cfg))))
    by (unfold upto, seqZ; by rewrite Nat2Z.id).
  induction n as [|n IH]; intros x0 g k Hwf Hx0 Hlen.
  - change (Z.of_nat 0) with 0. rewrite seqZ_nil by lia. cbn [fold_left fst snd].
    split; [lia|]. split; [done|]. intros x' y' _. case_decide; [lia|done].
  - rewrite seqZ_cons by lia. cbn [fold_left].
    replace (Z.pred (Z.of_nat (S n))) with (Z.of_nat n) by lia.
    pose proof (populate_column x0 (Z.to_nat (N_CELLS_COL cfg)) ltac:(lia) 0 g k Hwf
                  ltac:(lia) ltac:(lia)) as Hcol.
    cbn zeta in Hcol. rewrite <- Hup in Hcol.
    set (st := fold_left _ (upto (N_CELLS_COL cfg)) (g, k)) in *.
    destruct Hcol as (Hk1 & Hwf1 & Hload1).
    destruct (IH (Z.succ x0) (fst st) (snd st)) as (Hk & Hwf' & Hload); [done|lia..|].
    rewrite <- surjective_pairing in Hk, Hwf', Hload.
    split; [rewrite Hk, Hk1; lia|]. split; [done|]. intros x' y' Hb.
    rewrite (Hload x' y' Hb), (Hload1 x' y' Hb).
    pose proof Hb as [Hx' Hy']%in_bounds_spec.
    repeat case_decide; try lia; try done.
    + f_equal. rewrite Hk1.
      replace (Z.to_nat (x' - x0)) with (S (Z.to_nat (x' - Z.succ x0))) by lia. lia.
    + f_equal. replace (x' - x0) with 0 by lia. rewrite Z.sub_0_r. cbn. lia.
Qed.

End RandomCells.

Lemma populateRandomCells_spec (cfg : Config) (rand : nat -> Z) (cells : Grid) :
  well_formed cfg cells ->
  well_formed cfg (populateRandomCells cfg rand cells) /\
  forall x y, in_bounds cfg x y = true ->
    load (populateRandomCells cfg rand cells) x y
    = negb (Z.rem (rand (Z.to_nat (x * N_CELLS_COL cfg + y))) 2 =? 0).
Proof.
  intros Hwf. unfold populateRandomCells.
  destruct (Z.le_gt_cases (N_CELLS_ROW cfg) 0) as [Hneg|Hpos].
  { assert (Hu : upto (N_CELLS_ROW cfg) = []) by (apply seqZ_nil; lia).
    rewrite Hu. cbn. split; [done|]. intros x y Hb%in_bounds_spec. lia. }
  pose proof (populate_columns cfg (fun k => negb (Z.rem (rand k) 2 =? 0))
                (Z.to_nat (N_CELLS_ROW cfg)) 0 cells 0%nat Hwf ltac:(lia) ltac:(lia)) as Hp.
  rewrite Z2Nat.id in Hp by lia. cbn zeta in Hp.
  fold (upto (N_CELLS_ROW cfg)) in Hp.
  destruct Hp as (_ & Hwf' & Hload). split; [exact Hwf'|].
  intros x y Hb. etransitivity; [exact (Hload x y Hb)|].
  pose proof Hb as [Hx Hy]%in_bounds_spec.
  case_decide; [|lia]. do 3 f_equal. rewrite Z.sub_0_r.
  assert (0 <= x * N_CELLS_COL cfg) by nia.
  rewrite Z2Nat.inj_add, Z2Nat.inj_mul by lia. reflexivity.
Qed.

(** X7: [populateRandomCells] assigns every cell of the grid: afterwards the
    cell (x, y) is alive exactly when the value of the call number
    x * N_CELLS_COL + y of [rand()] is odd, whatever the array held
    before. *)
Theorem populateRandomCells_assigns_every_cell (cfg : Config) (rand : nat -> Z)
    (cells other : Grid) :
  well_formed cfg cells -> well_formed cfg other ->
  well_formed cfg (populateRandomCells cfg rand cells) /\
  (forall x y, in_bounds cfg x y = true ->
     (load (populateRandomCells cfg rand cells) x y = true
      <-> Z.rem (rand (Z.to_nat (x * N_CELLS_COL cfg + y))) 2 <> 0)) /\
  populateRandomCells cfg rand cells = populateRandomCells cfg rand other.
Proof.
  intros Hwf Hother.
  destruct (populateRandomCells_spec cfg rand cells Hwf) as [Hwf1 Hl1].
  destruct (populateRandomCells_spec cfg rand other Hother) as [Hwf2 Hl2].
  split; [done|]. split.
  - intros x y Hb. rewrite (Hl1 x y Hb), negb_true_iff, Z.eqb_neq. done.
  - apply (grid_ext cfg); [done..|]. intros x y Hb. by rewrite Hl1, Hl2.
Qed.

Lemma populateRandomCells_assigns_every_cell_witness :
  well_formed source_config corner_trio /\
  well_formed source_config plus_shape /\
  populateRandomCells source_config example_rand corner_trio
  = populateRandomCells source_config example_rand plus_shape.
Proof.
  assert (H1 : well_formed source_config corner_trio) by well_formed_by_evaluation.
  assert (H2 : well_formed source_config plus_shape) by well_formed_by_evaluation.
  exact (conj H1 (conj H2
    (proj2 (proj2 (populateRandomCells_assigns_every_cell source_config example_rand
                     corner_trio plus_shape H1 H2))))).
Defined.

(** ** The loop and main *)

Section LoopFurther.
Variable cfg : Config.

Lemma poll_events_orb (evs : list Event) (q : bool) :
  poll_events evs q = q || existsb is_quit_event evs.
Proof.
  unfold poll_events. revert q.
  induction evs as [|e evs IH]; intros q; cbn [fold_left existsb].
  - by rewrite orb_false_r.
  - rewrite IH. destruct e as [|sym|]; cbn [is_quit_event].
    + by rewrite orb_true_r.
    + destruct (sym =? SDLK_ESCAPE); [by rewrite orb_true_r | done].
    + done.
Qed.

Lemma executed_until_quit (before : list FrameInput) (q : FrameInput)
    (after : list FrameInput) :
  Forall (fun fi => poll_events (events fi) false = false) before ->
  poll_events (events q) false = true ->
  executed (before ++ q :: after) = before ++ [q].
Proof.
  intros Hbefore Hq. induction Hbefore as [|fi before Hfi _ IH]; cbn [executed app].
  - by rewrite Hq.
  - by rewrite Hfi, IH.
Qed.

Lemma executed_without_quit (inputs : list FrameInput) :
  Forall (fun fi => poll_events (events fi) false = false) inputs ->
  executed inputs = inputs /\
  existsb (fun fi => poll_events (events fi) false) inputs = false.
Proof.
  induction 1 as [|fi inputs Hfi _ [IH1 IH2]]; cbn [executed existsb]; [done|].
  by rewrite Hfi, IH1, IH2.
Qed.

(** How the loop can end: left with EXIT_SUCCESS after at least one
    iteration, in which case a quit event was polled, or still running. *)
Lemma main_loop_outcome (inputs : list FrameInput) (cells : Grid) :
  (snd (main_loop cfg inputs (loop_start cells)) = Exited EXIT_SUCCESS /\
   existsb (fun fi => poll_events (events fi) false) inputs = true /\
   fst (main_loop cfg inputs (loop_start cells)) <> []) \/
  (snd (main_loop cfg inputs (loop_start cells)) = Running /\
   existsb (fun fi => poll_events (events fi) false) inputs = false).
Proof.
  rewrite (main_loop_status cfg inputs (loop_start cells) eq_refl).
  destruct (existsb _ inputs) eqn:Hex; [left | right; done].
  split; [done|]. split; [done|].
  intros Hnil. apply (f_equal length) in Hnil.
  rewrite (main_loop_length cfg inputs (loop_start cells) eq_refl) in Hnil.
  destruct inputs as [|fi later]; [done|].
  cbn [executed] in Hnil. by destruct (poll_events (events fi) false).
Qed.

End LoopFurther.

(** X8: polling sets [quit] exactly when the window is closed or the escape
    key is pressed: a quit flag that is set stays set, and a flag that is
    not set becomes set if and only if the events polled contain SDL_QUIT
    or a key-down of SDLK_ESCAPE; other keys and other events do not end
    the program. *)
Theorem poll_events_quits_on_close_or_escape (evs : list Event) :
  poll_events evs true = true /\
  (poll_events evs false = true
   <-> SDL_QUIT ∈ evs \/ SDL_KEYDOWN SDLK_ESCAPE ∈ evs).
Proof.
  rewrite !poll_events_orb. split; [done|]. cbn [orb].
  rewrite existsb_exists. split.
  - intros (e & Hin%list_elem_of_In & He). destruct e as [|sym|]; cbn in He; [|
      apply Z.eqb_eq in He; subst|done]; auto.
  - intros [Hin|Hin]; eexists; (split; [apply list_elem_of_In, Hin|reflexivity]).
Qed.

(** X9: the iteration in which a quit event is polled is carried out to
    its end, with its drawing and its delay, the loop is then left with
    EXIT_SUCCESS, and no later input is used; before that the loop is
    still running, with one iteration for each input. *)
Theorem loop_ends_after_quit_frame (cfg : Config) (cells : Grid)
    (before : list FrameInput) (q : FrameInput) (after : list FrameInput) :
  Forall (fun fi => poll_events (events fi) false = false) before ->
  poll_events (events q) false = true ->
  let r := main_loop cfg (before ++ q :: after) (loop_start cells) in
  snd r = Exited EXIT_SUCCESS /\
  length (fst r) = S (length before) /\
  (exists (draw : list SurfaceOp) (update : list Action),
     last (fst r) = Some (ADraw draw :: update ++ [ADelay (frame_delay cfg q)])) /\
  main_loop cfg before (loop_start cells)
  = (fst (main_loop cfg before (loop_start cells)), Running) /\
  length (fst (main_loop cfg before (loop_start cells))) = length before.
Proof.
  intros Hbefore Hq r. subst r.
  pose proof (executed_until_quit before q after Hbefore Hq) as Hex.
  destruct (executed_without_quit before Hbefore) as [Hex' Hnone].
  assert (Hlen : length (fst (main_loop cfg (before ++ q :: after) (loop_start cells)))
                 = S (length before)).
  { rewrite (main_loop_length cfg _ (loop_start cells) eq_refl), Hex, length_app.
    cbn [length]. lia. }
  split; [|split; [done|split; [|split]]].
  - rewrite (main_loop_status cfg _ (loop_start cells) eq_refl).
    rewrite existsb_app. cbn [existsb]. rewrite Hq. by rewrite orb_true_r.
  - rewrite last_lookup, Hlen. cbn [pred].
    destruct (main_loop_lookup cfg (before ++ q :: after) (loop_start cells)
                (length before) q eq_refl) as [_ Hrun].
    { rewrite Hex. by rewrite lookup_app_r, Nat.sub_diag by lia. }
    rewrite Hrun. unfold frame_step. cbn [fst]. eexists _, _. reflexivity.
  - rewrite (surjective_pairing (main_loop cfg before (loop_start cells))) at 1.
    f_equal. by rewrite (main_loop_status cfg _ (loop_start cells) eq_refl), Hnone.
  - by rewrite (main_loop_length cfg _ (loop_start cells) eq_refl), Hex'.
Qed.

Lemma loop_ends_after_quit_frame_witness :
  Forall (fun fi => poll_events (events fi) false = false) (repeat idle_frame 25) /\
  poll_events (events escape_frame) false = true /\
  snd (main_loop source_config (repeat idle_frame 25 ++ escape_frame :: [idle_frame])
         (loop_start corner_trio))
  = Exited EXIT_SUCCESS.
Proof.
  assert (H1 : Forall (fun fi => poll_events (events fi) false = false)
                 (repeat idle_frame 25)) by (repeat constructor).
  assert (H2 : poll_events (events escape_frame) false = true) by reflexivity.
  exact (conj H1 (conj H2
    (proj1 (loop_ends_after_quit_frame source_config corner_trio (repeat idle_frame 25)
              escape_frame [idle_frame] H1 H2)))).
Defined.

(** X10: the time measured for a frame is right even when the 32-bit
    millisecond clock wraps around during the frame: if the clock, started
    at [startTicks], has advanced by d < 2^32 ms, [frameTime] is d. *)
Theorem frameTime_survives_wrap (fi : FrameInput) (d : Z) :
  0 <= startTicks fi < 2 ^ 32 -> 0 <= d < 2 ^ 32 ->
  endTicks fi = (startTicks fi + d) mod 2 ^ 32 ->
  frameTime fi = d.
Proof.
  intros Hs Hd He. unfold frameTime, to_Uint32. rewrite He.
  rewrite Z.mod_mod by lia. rewrite (Z.mod_small (startTicks fi)) by lia.
  rewrite Zminus_mod_idemp_l.
  replace (startTicks fi + d - startTicks fi) with d by lia.
  apply Z.mod_small. lia.
Qed.

Lemma frameTime_survives_wrap_witness :
  0 <= startTicks wrapping_frame < 2 ^ 32 /\
  0 <= 3 < 2 ^ 32 /\
  endTicks wrapping_frame = (startTicks wrapping_frame + 3) mod 2 ^ 32 /\
  frameTime wrapping_frame = 3.
Proof.
  assert (H1 : 0 <= startTicks wrapping_frame < 2 ^ 32) by (vm_compute; split; congruence).
  assert (H2 : 0 <= 3 < 2 ^ 32) by (vm_compute; split; congruence).
  assert (H3 : endTicks wrapping_frame = (startTicks wrapping_frame + 3) mod 2 ^ 32)
    by reflexivity.
  exact (conj H1 (conj H2 (conj H3 (frameTime_survives_wrap wrapping_frame 3 H1 H2 H3)))).
Defined.

(** X11: the ways [main] can end. When it returns EXIT_FAILURE no frame has
    been drawn and the last thing it did was to print a message; when it
    returns EXIT_SUCCESS the window was created, at least one frame was
    drawn and a quit event was polled; it returns no other value. *)
Theorem main_exit_status (cfg : Config) (argc : Z) (name : string)
    (fs : string -> option (list ascii)) (rand : nat -> Z) (stack : Grid)
    (inputs : list FrameInput) :
  let run := main cfg argc name fs rand stack inputs in
  (status run = Exited EXIT_FAILURE ->
     frames run = [] /\ exists d, last (startup run) = Some (AStderr d)) /\
  (status run = Exited EXIT_SUCCESS ->
     startup run = [ACreateWindow (SCR_WIDTH cfg) (SCR_HEIGHT cfg)] /\
     frames run <> [] /\
     existsb (fun fi => poll_events (events fi) false) inputs = true) /\
  (forall code, status run = Exited code -> code = EXIT_SUCCESS \/ code = EXIT_FAILURE).
Proof.
  assert (Hloop : forall cells,
    let run := mkRun [ACreateWindow (SCR_WIDTH cfg) (SCR_HEIGHT cfg)]
                 (fst (main_loop cfg inputs (loop_start cells)))
                 (snd (main_loop cfg inputs (loop_start cells))) in
    (status run = Exited EXIT_FAILURE ->
       frames run = [] /\ exists d, last (startup run) = Some (AStderr d)) /\
    (status run = Exited EXIT_SUCCESS ->
       startup run = [ACreateWindow (SCR_WIDTH cfg) (SCR_HEIGHT cfg)] /\
       frames run <> [] /\
       existsb (fun fi => poll_events (events fi) false) inputs = true) /\
    (forall code, status run = Exited code -> code = EXIT_SUCCESS \/ code = EXIT_FAILURE)).
  { intros cells run. subst run. cbn [status frames startup].
    destruct (main_loop_outcome cfg inputs cells) as [(Hs & Hex & Hfr)|(Hs & Hex)];
      rewrite Hs; (split; [done|]); (split; [done|]); intros code [= <-]; by left. }
  assert (Hfail : forall d pre,
    let run := mkRun (pre ++ [AStderr d]) [] (Exited EXIT_FAILURE) in
    (status run = Exited EXIT_FAILURE ->
       frames run = [] /\ exists d, last (startup run) = Some (AStderr d)) /\
    (status run = Exited EXIT_SUCCESS ->
       startup run = [ACreateWindow (SCR_WIDTH cfg) (SCR_HEIGHT cfg)] /\
       frames run <> [] /\
       existsb (fun fi => poll_events (events fi) false) inputs = true) /\
    (forall code, status run = Exited code -> code = EXIT_SUCCESS \/ code = EXIT_FAILURE)).
  { intros d pre run. subst run. cbn [status frames startup].
    split; [intros _; split; [done|]; exists d; by rewrite last_snoc|].
    split; [done|]. intros code [= <-]. by right. }
  unfold main.
  destruct (argc >? 2); [exact (Hfail TooManyArguments [])|].
  destruct (negb _ || negb _); [exact (Hfail ScreenNotMultipleOfCell [])|].
  destruct (FRAMES_PER_ITERATION cfg =? 0); [exact (Hfail SimulationFasterThanFPS [])|].
  cbv zeta. destruct (argc =? 2); [|apply Hloop].
  destruct (readInput cfg fs _ name) as [cells'|d cells'|].
  - apply Hloop.
  - exact (Hfail d [ACreateWindow (SCR_WIDTH cfg) (SCR_HEIGHT cfg)]).
  - cbn [status frames startup]. split; [done|]. split; [done|]. intros code [=].
Qed.

(** X12: started without an argument, [main] does not depend on what the
    array [cells] holds before it is filled at random, nor on any file:
    the whole run is the same. *)
Theorem random_mode_ignores_stack (cfg : Config) (name1 name2 : string)
    (fs1 fs2 : string -> option (list ascii)) (rand : nat -> Z)
    (stack1 stack2 : Grid) (inputs : list FrameInput) :
  well_formed cfg stack1 -> well_formed cfg stack2 ->
  main cfg 1 name1 fs1 rand stack1 inputs = main cfg 1 name2 fs2 rand stack2 inputs.
Proof.
  intros H1 H2. unfold main.
  change (1 >? 2) with false. change (1 =? 1) with true. change (1 =? 2) with false.
  cbv iota zeta.
  assert (Heq : populateRandomCells cfg rand stack1 = populateRandomCells cfg rand stack2).
  { destruct (populateRandomCells_spec cfg rand stack1 H1) as [Hw1 Hl1].
    destruct (populateRandomCells_spec cfg rand stack2 H2) as [Hw2 Hl2].
    apply (grid_ext cfg); [done..|]. intros x y Hb. by rewrite Hl1, Hl2. }
  by rewrite Heq.
Qed.

Lemma random_mode_ignores_stack_witness :
  well_formed source_config corner_trio /\
  well_formed source_config plus_shape /\
  main source_config 1 example_name (only_file byte_ff_file) example_rand corner_trio
    some_frames
  = main source_config 1 example_name (only_file alive_then_x_file) example_rand plus_shape
      some_frames.
Proof.
  assert (H1 : well_formed source_config corner_trio) by well_formed_by_evaluation.
  assert (H2 : well_formed source_config plus_shape) by well_formed_by_evaluation.
  exact (conj H1 (conj H2
    (random_mode_ignores_stack source_config example_name example_name
       (only_file byte_ff_file) (only_file alive_then_x_file) example_rand
       corner_trio plus_shape some_frames H1 H2))).
Defined.

(** ** readInput *)

Section ReadFurther.
Variable cfg : Config.

(** A cell addressed outside the array: the call has no meaning. *)
Lemma read_loop_out_of_bounds (input : list ascii) :
  forall (x0 y0 : Z) (cells : Grid) (p : Z * Z),
  p ∈ addressed input x0 y0 -> in_bounds cfg (fst p) (snd p) = false ->
  read_loop cfg input x0 y0 cells = ReadUndefined.
Proof.
  induction input as [|b rest IH]; intros x0 y0 cells p Hin Hout.
  - by apply elem_of_nil in Hin.
  - cbn [addressed] in Hin. destruct (Ascii.eqb_spec b newline) as [->|Hnl].
    + rewrite read_loop_newline. destruct (y0 + 1 <=? INT_MAX); [|done]. by eapply IH.
    + destruct (is_cell_char b) eqn:Hcell; [|by apply elem_of_nil in Hin].
      rewrite read_loop_cell by done.
      apply elem_of_cons in Hin as [->|Hin].
      * cbn [fst snd] in Hout. by rewrite Hout.
      * destruct (in_bounds cfg x0 y0); [|done]. by eapply IH.
Qed.

(** Whatever follows a byte 0xFF is not read. *)
Lemma read_loop_stops_at_byte_ff (pre rest : list ascii) :
  forall (x0 y0 : Z) (cells : Grid),
  read_loop cfg (pre ++ "255"%char :: rest) x0 y0 cells = read_loop cfg pre x0 y0 cells.
Proof.
  induction pre as [|b pre IH]; intros x0 y0 cells; [reflexivity|].
  rewrite <- app_comm_cons. cbn [read_loop].
  repeat match goal with
  | |- context [if ?c then _ else _] => destruct c
  end; try reflexivity; apply IH.
Qed.

(** Reading the characters of one line, with all that is left as it was. *)
Lemma read_row_exact (line rest : list ascii) (y : Z) :
  forall (x0 : Z) (cells : Grid),
  well_formed cfg cells ->
  0 <= x0 -> x0 + Z.of_nat (length line) <= N_CELLS_ROW cfg ->
  0 <= y < N_CELLS_COL cfg ->
  Forall (fun b => is_cell_char b = true) line ->
  exists cells',
    read_loop cfg (line ++ rest) x0 y cells
    = read_loop cfg rest (x0 + Z.of_nat (length line)) y cells' /\
    well_formed cfg cells' /\
    (forall (i : nat) (b : ascii), line !! i = Some b ->
       load cells' (x0 + Z.of_nat i) y = Ascii.eqb b "#"%char) /\
    (forall x' y', in_bounds cfg x' y' = true ->
       ~ (y' = y /\ x0 <= x' < x0 + Z.of_nat (length line)) ->
       load cells' x' y' = load cells x' y').
Proof.
  induction line as [|b line IH]; intros x0 cells Hwf Hx0 Hlen Hy Hchars.
  - exists cells. cbn. rewrite Z.add_0_r. done.
  - apply Forall_cons in Hchars as [Hb Hchars]. cbn [length] in Hlen.
    assert (Hb0 : in_bounds cfg x0 y = true) by (apply in_bounds_spec; lia).
    destruct (IH (x0 + 1) (store cells x0 y (Ascii.eqb b "#"%char)))
      as (cells' & Hread & Hwf' & Hval & Hfr); [by apply store_well_formed|lia..|done|].
    exists cells'. split; [|split; [done|split]].
    + rewrite <- app_comm_cons, read_loop_cell, Hb0, Hread by done.
      f_equal. cbn [length]. lia.
    + intros [|i] b' Hi.
      * cbn in Hi. simplify_eq. rewrite Z.add_0_r.
        rewrite Hfr by (done || lia). rewrite (load_store cfg) by done.
        case_decide as Hne; [done|]. exfalso. apply Hne. done.
      * cbn in Hi. rewrite <- (Hval i b' Hi). f_equal. lia.
    + intros x' y' Hb' Hout. cbn [length] in Hout. rewrite Hfr by (done || lia).
      rewrite (load_store cfg) by done. case_decide as Heq; [|done]. lia.
Qed.

(** Reading lines that may be shorter than the grid is wide, and fewer
    than the grid is high, from the start of row [y]. *)
Lemma read_ragged (trailing : bool) (lines : list (list ascii)) :
  forall (y : Z) (cells : Grid),
  well_formed cfg cells ->
  N_CELLS_COL cfg <= INT_MAX ->
  0 <= y -> y + Z.of_nat (length lines) <= N_CELLS_COL cfg ->
  Forall (fun line => Z.of_nat (length line) <= N_CELLS_ROW cfg /\
                      Forall (fun b => is_cell_char b = true) line) lines ->
  exists cells',
    read_loop cfg (text_block lines trailing) 0 y cells = ReadSuccess cells' /\
    well_formed cfg cells' /\
    (forall (j i : nat) (line : list ascii) (b : ascii),
       lines !! j = Some line -> line !! i = Some b ->
       load cells' (Z.of_nat i) (y + Z.of_nat j) = Ascii.eqb b "#"%char) /\
    (forall x' y', in_bounds cfg x' y' = true ->
       (forall (j : nat) (line : list ascii),
          lines !! j = Some line -> y' = y + Z.of_nat j -> Z.of_nat (length line) <= x') ->
       load cells' x' y' = load cells x' y').
Proof.
  induction lines as [|line lines IH]; intros y cells Hwf Hmax Hy Hlen Hlines.
  - exists cells. done.
  - apply Forall_cons in Hlines as [[Hline Hchars] Hlines]. cbn [length] in Hlen.
    destruct (read_row_exact line
                (match lines with
                 | [] => if trailing then [newline] else []
                 | _ :: _ => newline :: text_block lines trailing
                 end) y 0 cells)
      as (cells1 & Hread1 & Hwf1 & Hval1 & Hfr1); [done|lia..|done|].
    assert (Hstep : (y + 1 <=? INT_MAX) = true) by (apply Z.leb_le; lia).
    destruct lines as [|line2 lines].
    + exists cells1. split; [|split; [done|split]].
      * cbn [text_block]. rewrite Hread1.
        destruct trailing; [|done]. by rewrite read_loop_newline, Hstep.
      * intros [|j] i l b Hj Hi; [|done]. cbn in Hj. simplify_eq.
        rewrite Z.add_0_r. by rewrite <- (Hval1 i b Hi).
      * intros x' y' Hb' Hshort. apply Hfr1; [done|].
        intros [-> Hx']. specialize (Hshort 0%nat line eq_refl). lia.
    + destruct (IH (y + 1) cells1) as (cells' & Hread & Hwf' & Hval & Hfr);
        [done|done|lia|cbn [length] in *; lia|done|].
      exists cells'. split; [|split; [done|split]].
      * change (text_block (line :: line2 :: lines) trailing)
          with (line ++ newline :: text_block (line2 :: lines) trailing).
        by rewrite Hread1, read_loop_newline, Hstep.
      * intros [|j] i l b Hj Hi.
        -- cbn in Hj. simplify_eq. rewrite Z.add_0_r.
           assert (Hi' := lookup_lt_Some _ _ _ Hi).
           rewrite Hfr; [by rewrite <- (Hval1 i b Hi)|rewrite in_bounds_spec; lia|].
           intros j' l' _ Hj'. lia.
        -- cbn in Hj. rewrite <- (Hval j i l b Hj Hi). f_equal. lia.
      * intros x' y' Hb' Hshort. rewrite Hfr; [|done|].
        -- apply Hfr1; [done|]. intros [-> Hx'].
           specialize (Hshort 0%nat line eq_refl). lia.
        -- intros j l Hj Hy'. apply (Hshort (S j) l Hj). lia.
Qed.

End ReadFurther.

(** X13: [readInput] stores outside the array exactly when the file
    addresses a cell outside the grid: for a file of at most INT_MAX bytes,
    the call reaches a store [cells[x][y]] with (x, y) outside the array,
    from where on C gives the execution no meaning, if and only if one of
    the '#' and '.' it consumes addresses a position outside the grid, as
    in a line longer than the grid is wide. *)
Theorem read_stores_outside_iff_addressed_outside (cfg : Config)
    (fs : string -> option (list ascii)) (name : string) (content : list ascii)
    (cells : Grid) :
  fs name = Some content ->
  Z.of_nat (length content) <= INT_MAX ->
  (readInput cfg fs cells name = ReadUndefined
   <-> exists p, p ∈ addressed content 0 0 /\ in_bounds cfg (fst p) (snd p) = false).
Proof.
  intros Hfs Hlen. unfold readInput. rewrite Hfs. split.
  - intros Hundef.
    destruct (decide (Forall (fun p => in_bounds cfg (fst p) (snd p) = true)
                        (addressed content 0 0))) as [Hall|Hnot].
    + rewrite Forall_forall in Hall.
      destruct (read_loop_returns cfg content 0 0 cells Hall ltac:(lia)) as [g Hg].
      by rewrite Hundef in Hg.
    + apply not_Forall_Exists in Hnot; [|apply _].
      apply Exists_exists in Hnot as (p & Hin & Hp). exists p. split; [done|].
      cbn in Hp. by destruct (in_bounds cfg (fst p) (snd p)).
  - intros (p & Hin & Hout). by eapply read_loop_out_of_bounds.
Qed.

Lemma read_stores_outside_iff_addressed_outside_witness :
  only_file long_line_file example_name = Some long_line_file /\
  Z.of_nat (length long_line_file) <= INT_MAX /\
  readInput source_config (only_file long_line_file) (blank source_config) example_name
  = ReadUndefined.
Proof.
  assert (H1 : only_file long_line_file example_name = Some long_line_file)
    by reflexivity.
  assert (H2 : Z.of_nat (length long_line_file) <= INT_MAX) by (vm_compute; congruence).
  assert (H3 : exists p, p ∈ addressed long_line_file 0 0 /\
                         in_bounds source_config (fst p) (snd p) = false).
  { exists (80, 0). split; [|reflexivity].
    apply list_elem_of_lookup. exists 80%nat. reflexivity. }
  exact (conj H1 (conj H2
    (proj2 (read_stores_outside_iff_addressed_outside source_config
              (only_file long_line_file) example_name long_line_file
              (blank source_config) H1 H2) H3))).
Defined.

(** X14: what follows a byte 0xFF in the file has no effect on
    [readInput]: the call behaves as on the file cut before that byte. *)
Theorem read_ignores_rest_after_byte_ff (cfg : Config) (pre rest : list ascii)
    (name : string) (cells : Grid) :
  readInput cfg (only_file (pre ++ "255"%char :: rest)) cells name
  = readInput cfg (only_file pre) cells name.
Proof. unfold readInput, only_file. apply read_loop_stops_at_byte_ff. Qed.

(** X15: a text of '#' and '.' with at most as many lines as the grid is
    high, each at most as long as the grid is wide, with or without a
    newline after the last line, is read with success; the cell (x, y) is
    then alive exactly when character x of line y is '#', and every cell
    for which the text has no character is left as it was. *)
Theorem read_short_text (cfg : Config) (fs : string -> option (list ascii))
    (lines : list (list ascii)) (trailing : bool) (name : string) (cells : Grid) :
  valid_config cfg -> well_formed cfg cells ->
  Z.of_nat (length lines) <= N_CELLS_COL cfg ->
  Forall (fun line => Z.of_nat (length line) <= N_CELLS_ROW cfg /\
                      Forall (fun b => is_cell_char b = true) line) lines ->
  fs name = Some (text_block lines trailing) ->
  exists cells',
    readInput cfg fs cells name = ReadSuccess cells' /\
    well_formed cfg cells' /\
    (forall (x y : nat) (line : list ascii) (b : ascii),
       lines !! y = Some line -> line !! x = Some b ->
       (load cells' (Z.of_nat x) (Z.of_nat y) = true <-> b = "#"%char)) /\
    (forall x y, in_bounds cfg x y = true ->
       (forall line, lines !! Z.to_nat y = Some line -> Z.of_nat (length line) <= x) ->
       load cells' x y = load cells x y).
Proof.
  intros Hvalid Hwf Hlen Hlines Hfs.
  destruct (grid_dimensions_valid cfg Hvalid) as [HW HH].
  destruct (read_ragged cfg trailing lines 0 cells) as (cells' & Hread & Hwf' & Hval & Hfr);
    [done|lia|lia|lia|done|].
  exists cells'. unfold readInput. rewrite Hfs. split; [exact Hread|]. split; [done|]. split.
  - intros x y line b Hy Hx. rewrite <- (Ascii.eqb_eq b "#"%char).
    by rewrite <- (Hval y x line b Hy Hx).
  - intros x y Hb Hshort. apply Hfr; [done|].
    intros j line Hj Hy. apply Hshort. replace (Z.to_nat y) with j by lia. done.
Qed.

Lemma read_short_text_witness :
  valid_config source_config /\
  well_formed source_config corner_trio /\
  Z.of_nat (length ragged_lines) <= N_CELLS_COL source_config /\
  Forall (fun line => Z.of_nat (length line) <= N_CELLS_ROW source_config /\
                      Forall (fun b => is_cell_char b = true) line) ragged_lines /\
  only_file (text_block ragged_lines false) example_name
  = Some (text_block ragged_lines false) /\
  exists cells',
    readInput source_config (only_file (text_block ragged_lines false)) corner_trio
      example_name = ReadSuccess cells' /\
    well_formed source_config cells' /\
    (forall (x y : nat) (line : list ascii) (b : ascii),
       ragged_lines !! y = Some line -> line !! x = Some b ->
       (load cells' (Z.of_nat x) (Z.of_nat y) = true <-> b = "#"%char)) /\
    (forall x y, in_bounds source_config x y = true ->
       (forall line, ragged_lines !! Z.to_nat y = Some line ->
          Z.of_nat (length line) <= x) ->
       load cells' x y = load corner_trio x y).
Proof.
  assert (Hvalid : valid_config source_config) by valid_config_by_evaluation.
  assert (Hwf : well_formed source_config corner_trio) by well_formed_by_evaluation.
  assert (Hlen : Z.of_nat (length ragged_lines) <= N_CELLS_COL source_config)
    by (vm_compute; congruence).
  assert (Hlines : Forall (fun line =>
                      Z.of_nat (length line) <= N_CELLS_ROW source_config /\
                      Forall (fun b => is_cell_char b = true) line) ragged_lines).
  { repeat (constructor; [split; [vm_compute; congruence | repeat constructor]|]).
    constructor. }
  assert (Hfs : only_file (text_block ragged_lines false) example_name
                = Some (text_block ragged_lines false)) by reflexivity.
  exact (conj Hvalid (conj Hwf (conj Hlen (conj Hlines (conj Hfs
    (read_short_text source_config (only_file (text_block ragged_lines false))
       ragged_lines false example_name corner_trio Hvalid Hwf Hlen Hlines Hfs)))))).
Defined.

(** ** From the command line to the first frame *)

Section EndToEnd.
Variable cfg : Config.
Hypothesis Hvalid : valid_config cfg.

(** [main] with a file name, once the start-up checks have passed. *)
Lemma main_file_mode (name : string) (fs : string -> option (list ascii))
    (rand : nat -> Z) (stack : Grid) (inputs : list FrameInput) :
  main cfg 2 name fs rand stack inputs
  = match readInput cfg fs stack name with
    | ReadSuccess cells =>
        mkRun [ACreateWindow (SCR_WIDTH cfg) (SCR_HEIGHT cfg)]
              (fst (main_loop cfg inputs (loop_start cells)))
              (snd (main_loop cfg inputs (loop_start cells)))
    | ReadFailure d _ =>
        mkRun [ACreateWindow (SCR_WIDTH cfg) (SCR_HEIGHT cfg); AStderr d] []
              (Exited EXIT_FAILURE)
    | ReadUndefined => mkRun [ACreateWindow (SCR_WIDTH cfg) (SCR_HEIGHT cfg)] [] Undefined
    end.
Proof.
  destruct Hvalid as (_ & _ & _ & _ & _ & Hrw & Hrh & Hn). unfold main.
  change (2 >? 2) with false. change (2 =? 1) with false. change (2 =? 2) with true.
  rewrite Hrw, Hrh. cbn [Z.eqb negb orb].
  destruct (Z.eqb_spec (FRAMES_PER_ITERATION cfg) 0) as [|_]; [done|].
  cbv iota zeta. by destruct (readInput cfg fs stack name).
Qed.

(** The square of a cell of the grid is drawn exactly when the cell is
    alive. *)
Lemma drawScreen_cell (cells : Grid) (x y : Z) :
  in_bounds cfg x y = true ->
  (cell_rect cfg (x, y) ∈ drawScreen cfg cells <-> load cells x y = true).
Proof.
  intros Hb. destruct Hvalid as (Hc & _). split.
  - intros Hin.
    apply drawScreen_rect in Hin as [?|[?|(x' & y' & Hb' & Ha & Heq)]]; [done..|].
    unfold cell_rect in Heq. cbn [fst snd] in Heq. simplify_eq.
    assert (x = x') by nia. assert (y = y') by nia. by subst.
  - intros Ha. rewrite drawScreen_closed. apply elem_of_app. right. apply elem_of_app. left.
    apply list_elem_of_In, in_map_iff. exists (x, y). split; [reflexivity|].
    apply filter_In. split; [by apply list_elem_of_In, in_positions|done].
Qed.

End EndToEnd.

(** X16: when the file named on the command line cannot be opened,
    [readInput] leaves the array as it is and fails with a message that
    names the file; [main], which has created the window by then, returns
    EXIT_FAILURE without drawing a frame. *)
Theorem unreadable_file_fails (cfg : Config) (name : string)
    (fs : string -> option (list ascii)) (rand : nat -> Z) (stack : Grid)
    (inputs : list FrameInput) :
  valid_config cfg -> fs name = None ->
  readInput cfg fs stack name = ReadFailure (CouldNotOpenFile name) stack /\
  main cfg 2 name fs rand stack inputs
  = mkRun [ACreateWindow (SCR_WIDTH cfg) (SCR_HEIGHT cfg); AStderr (CouldNotOpenFile name)]
          [] (Exited EXIT_FAILURE).
Proof.
  intros Hvalid Hfs.
  assert (Hread : readInput cfg fs stack name = ReadFailure (CouldNotOpenFile name) stack)
    by (unfold readInput; by rewrite Hfs).
  split; [done|]. by rewrite (main_file_mode cfg Hvalid), Hread.
Qed.

Lemma unreadable_file_fails_witness :
  valid_config source_config /\
  (fun _ : string => @None (list ascii)) example_name = None /\
  main source_config 2 example_name (fun _ => None) example_rand corner_trio some_frames
  = mkRun [ACreateWindow 640 480; AStderr (CouldNotOpenFile example_name)]
          [] (Exited EXIT_FAILURE).
Proof.
  assert (Hvalid : valid_config source_config) by valid_config_by_evaluation.
  assert (Hfs : (fun _ : string => @None (list ascii)) example_name = None) by reflexivity.
  exact (conj Hvalid (conj Hfs
    (proj2 (unreadable_file_fails source_config example_name (fun _ => None) example_rand
              corner_trio some_frames Hvalid Hfs)))).
Defined.

(** X17: [main] creates the window exactly when the start-up checks pass:
    at most one argument, SCR_WIDTH and SCR_HEIGHT multiples of CELL_SIZE,
    FRAMES_PER_ITERATION not 0. When a check does not pass it returns
    EXIT_FAILURE at once, and too many arguments are reported before a
    wrong configuration. *)
Theorem main_checks_before_window (cfg : Config) (argc : Z) (name : string)
    (fs : string -> option (list ascii)) (rand : nat -> Z) (stack : Grid)
    (inputs : list FrameInput) :
  let run := main cfg argc name fs rand stack inputs in
  let checks_pass :=
    argc <= 2 /\ Z.rem (SCR_WIDTH cfg) (CELL_SIZE cfg) = 0 /\
    Z.rem (SCR_HEIGHT cfg) (CELL_SIZE cfg) = 0 /\ FRAMES_PER_ITERATION cfg <> 0 in
  (ACreateWindow (SCR_WIDTH cfg) (SCR_HEIGHT cfg) ∈ startup run <-> checks_pass) /\
  (~ checks_pass ->
     exists d, run = mkRun [AStderr d] [] (Exited EXIT_FAILURE)) /\
  (argc > 2 -> run = mkRun [AStderr TooManyArguments] [] (Exited EXIT_FAILURE)).
Proof.
  intros run checks_pass. subst run checks_pass. unfold main.
  destruct (Z.gtb_spec argc 2) as [Hargc|Hargc].
  { split; [|split]; [|by eexists|done]. split; [|lia].
    intros Hin. apply list_elem_of_singleton in Hin. done. }
  destruct (Z.eqb_spec (Z.rem (SCR_WIDTH cfg) (CELL_SIZE cfg)) 0) as [Hw|Hw]; cbn [negb orb].
  2:{ split; [|split]; [|by eexists|lia]. split; [|tauto].
      intros Hin. apply list_elem_of_singleton in Hin. done. }
  destruct (Z.eqb_spec (Z.rem (SCR_HEIGHT cfg) (CELL_SIZE cfg)) 0) as [Hh|Hh]; cbn [negb].
  2:{ split; [|split]; [|by eexists|lia]. split; [|tauto].
      intros Hin. apply list_elem_of_singleton in Hin. done. }
  destruct (Z.eqb_spec (FRAMES_PER_ITERATION cfg) 0) as [Hn|Hn].
  { split; [|split]; [|by eexists|lia]. split; [|tauto].
    intros Hin. apply list_elem_of_singleton in Hin. done. }
  cbv zeta. split; [|split]; [|tauto|lia]. split; [tauto|]. intros _.
  destruct (argc =? 2); [destruct (readInput cfg fs _ name)|];
    cbn [startup app]; apply elem_of_cons; by left.
Qed.

(** X18: started with a text block of the dimensions of the grid, the
    program shows the text in its first frame: the frame draws the square
    of the cell (x, y) exactly when character x of line y is '#', and then
    calls [updateCells]. *)
Theorem first_frame_shows_file (cfg : Config) (fs : string -> option (list ascii))
    (lines : list (list ascii)) (trailing : bool) (name : string) (stack : Grid)
    (rand : nat -> Z) (fi : FrameInput) (later : list FrameInput) :
  valid_config cfg -> well_formed cfg stack -> matches_grid cfg lines ->
  fs name = Some (text_block lines trailing) ->
  exists (ops : list SurfaceOp) (more : list (list Action)),
    frames (main cfg 2 name fs rand stack (fi :: later))
    = [ADraw ops; AUpdate; ADelay (frame_delay cfg fi)] :: more /\
    forall (x y : nat) (line : list ascii) (b : ascii),
      lines !! y = Some line -> line !! x = Some b ->
      (cell_rect cfg (Z.of_nat x, Z.of_nat y) ∈ ops <-> b = "#"%char).
Proof.
  intros Hvalid Hwf [Hlen Hlines] Hfs.
  destruct (grid_dimensions_valid cfg Hvalid) as [HW HH].
  destruct (read_text cfg trailing lines 0 stack) as (cells' & Hread & Hwf' & Hval & _);
    [|done|lia|lia|lia|done|].
  { intros ->. cbn in Hlen. lia. }
  assert (Hr : readInput cfg fs stack name = ReadSuccess cells')
    by (unfold readInput; by rewrite Hfs).
  rewrite (main_file_mode cfg Hvalid), Hr. cbn [frames main_loop loop_start quit fst].
  eexists _, _. split; [reflexivity|].
  intros x y line b Hy Hx.
  rewrite Forall_forall in Hlines.
  destruct (Hlines line) as [Hw _]; [apply list_elem_of_lookup; eauto|].
  pose proof (lookup_lt_Some _ _ _ Hy). pose proof (lookup_lt_Some _ _ _ Hx).
  rewrite (drawScreen_cell cfg Hvalid) by (apply in_bounds_spec; lia).
  rewrite <- (Ascii.eqb_eq b "#"%char). by rewrite <- (Hval y x line b Hy Hx).
Qed.

Lemma first_frame_shows_file_witness :
  valid_config source_config /\
  well_formed source_config corner_trio /\
  matches_grid source_config chequer_lines /\
  only_file (text_block chequer_lines false) example_name
  = Some (text_block chequer_lines false) /\
  exists (ops : list SurfaceOp) (more : list (list Action)),
    frames (main source_config 2 example_name (only_file (text_block chequer_lines false))
              example_rand corner_trio (idle_frame :: [escape_frame]))
    = [ADraw ops; AUpdate; ADelay (frame_delay source_config idle_frame)] :: more /\
    forall (x y : nat) (line : list ascii) (b : ascii),
      chequer_lines !! y = Some line -> line !! x = Some b ->
      (cell_rect source_config (Z.of_nat x, Z.of_nat y) ∈ ops <-> b = "#"%char).
Proof.
  assert (Hvalid : valid_config source_config) by valid_config_by_evaluation.
  assert (Hwf : well_formed source_config corner_trio) by well_formed_by_evaluation.
  assert (Hm : matches_grid source_config chequer_lines)
    by (apply matches_gridb_spec; vm_compute; reflexivity).
  assert (Hfs : only_file (text_block chequer_lines false) example_name
                = Some (text_block chequer_lines false)) by reflexivity.
  exact (conj Hvalid (conj Hwf (conj Hm (conj Hfs
    (first_frame_shows_file source_config (only_file (text_block chequer_lines false))
       chequer_lines false example_name corner_trio example_rand idle_frame
       [escape_frame] Hvalid Hwf Hm Hfs))))).
Defined.

(** ** The pace of the loop *)

Lemma frame_delay_max (cfg : Config) (fi : FrameInput) :
  0 < FPS cfg <= INT_MAX ->
  0 <= 1000 ÷ FPS cfg <= 1000 /\
  0 <= frameTime fi < 2 ^ 32 /\
  frame_delay cfg fi = Z.max 0 (1000 ÷ FPS cfg - frameTime fi).
Proof.
  intros Hfps.
  assert (Hq : 1000 ÷ FPS cfg = 1000 / FPS cfg) by (apply Z.quot_div_nonneg; lia).
  assert (Hrange : 0 <= 1000 ÷ FPS cfg <= 1000).
  { rewrite Hq. split; [apply Z.div_pos; lia|]. apply Z.div_le_upper_bound; nia. }
  assert (Ht : 0 <= frameTime fi < 2 ^ 32) by (apply Z.mod_pos_bound; lia).
  split; [done|]. split; [done|].
  unfold frame_delay, to_Uint32 at 1 2 3.
  rewrite (Z.mod_small (1000 ÷ FPS cfg)) by lia.
  destruct (Z.gtb_spec (frameTime fi) (1000 ÷ FPS cfg)); [lia|].
  rewrite Z.mod_small by lia. lia.
Qed.

(** X19: the delay caps the frame rate and nothing more: the delay is never
    longer than the interval 1000/FPS, the measured time and the delay add
    up to the longer of the measured time and the interval, and the
    interval, a whole number of milliseconds, is not longer than the FPS-th
    part of a second, so that the cap is not below FPS frames a second. *)
Theorem frame_rate_is_capped (cfg : Config) (fi : FrameInput) :
  valid_config cfg ->
  0 <= frame_delay cfg fi <= 1000 ÷ FPS cfg /\
  frameTime fi + frame_delay cfg fi = Z.max (frameTime fi) (1000 ÷ FPS cfg) /\
  (1000 ÷ FPS cfg) * FPS cfg <= 1000 < (1000 ÷ FPS cfg + 1) * FPS cfg.
Proof.
  intros (_ & _ & _ & _ & Hfps & _).
  destruct (frame_delay_max cfg fi Hfps) as (Hr & Ht & Hd). rewrite Hd.
  split; [lia|]. split; [lia|].
  rewrite Z.quot_div_nonneg by lia.
  pose proof (Z.div_mod 1000 (FPS cfg) ltac:(lia)).
  pose proof (Z.mod_pos_bound 1000 (FPS cfg) ltac:(lia)). nia.
Qed.

Lemma frame_rate_is_capped_witness :
  valid_config source_config /\
  frameTime escape_frame + frame_delay source_config escape_frame
  = Z.max (frameTime escape_frame) (1000 ÷ FPS source_config).
Proof.
  assert (Hvalid : valid_config source_config) by valid_config_by_evaluation.
  exact (conj Hvalid
    (proj1 (proj2 (frame_rate_is_capped source_config escape_frame Hvalid)))).
Defined.
